(** * Image preview: the interactive transform engine

    Shallow embedding of [components/vc-image/src/Preview.tsx] (the [setup]
    function of the [Preview] component) and proofs about its handlers.

    Modelling conventions.
    - A JavaScript [number] holding a length, a coordinate or a scale factor
      is an exact rational ([Q]): no rounding, no NaN, no infinities; a
      statement that divides assumes a divisor other than 0.  The
      literals [1.5], [0.667] and [0.5] are [3#2], [667#1000] and [1#2]; [===]
      and [!==] on such numbers are [Qeq_bool] and its negation.
    - [rotate.value] and the two flip signs only ever receive integers, they
      are in [Z]; the JavaScript [%] is the truncating remainder [Z.rem].
    - Every [ref] / [shallowRef] / [reactive] of [setup] is one field of
      [State]; a handler is a function [State -> State] that performs the
      assignments of the source in the source's order.
    - What a handler reads from the DOM or from the props when it runs
      ([props.visible], [imgRef.value] and its layout, the window size) is an
      [Env] snapshot passed to the handler. *)

From Stdlib Require Import ZArith QArith Qminmax Bool List String Lia Lqa.
Import ListNotations.

Set Implicit Arguments.

Open Scope Q_scope.

(** ** Numbers *)

(** [a < b] and [a > b] of the source, as booleans. *)
Definition Qlt_bool (a b : Q) : bool := negb (Qle_bool b a).
Definition Qgt_bool (a b : Q) : bool := Qlt_bool b a.
(** [a >= b] and [a !== b]. *)
Definition Qge_bool (a b : Q) : bool := Qle_bool b a.
Definition Qneq_bool (a b : Q) : bool := negb (Qeq_bool a b).

(** ** Data *)

(** [{ x: number; y: number }] *)
Record Point : Set := mkPoint { x : Q; y : Q }.

(** [const initialPosition = { x: 0, y: 0 }] *)
Definition initialPosition : Point := {| x := 0; y := 0 |}.

(** [reactive({ x: 1, y: 1 })], the two flip signs. *)
Record Flip : Set := mkFlip { flip_x : Z; flip_y : Z }.

(** [originPositionRef] *)
Record OriginPosition : Set := mkOrigin
  { originX : Q; originY : Q; deltaX : Q; deltaY : Q }.

(** The layout of the image element that the handlers read:
    [offsetWidth], [offsetHeight], [offsetLeft], [offsetTop], and the result
    [{ left, top }] of [getOffset(imgRef.value)]. *)
Record ImgElement : Set := mkImg
  { offsetWidth : Q; offsetHeight : Q; offsetLeft : Q; offsetTop : Q;
    pageLeft : Q; pageTop : Q }.

(** What a handler finds outside the component when it runs. *)
Record Env : Set := mkEnv
  { visible : bool;                  (* props.visible *)
    imgRef : option ImgElement;      (* imgRef.value, undefined until mounted *)
    innerWidth : Q;                  (* window.innerWidth *)
    innerHeight : Q }.               (* window.innerHeight *)

(** The part of a mouse event the handlers use. *)
Record MouseEvent : Set := mkMouse { button : Z; pageX : Q; pageY : Q }.

(** Keys of the group's [previewUrls] map. *)
Definition Key : Set := Z.

(** Modelled from the spec: the table [_util/KeyCode] is not part of the
    sources at hand; [LEFT] and [RIGHT] are the DOM key codes of the two
    arrow keys. *)
Module KeyCode.
Definition LEFT : Z := 37%Z.
Definition RIGHT : Z := 39%Z.
End KeyCode.

(** What is fixed when [setup] runs: the two scale props (both optional) and
    the group context.  [previewUrls] is a JavaScript [Map], kept as the list
    of its entries in insertion order. *)
Record Config : Set := mkConfig
  { props_minScale : option Q;
    props_maxScale : option Q;
    isPreviewGroup : bool;
    previewUrls : list (Key * string) }.

(** [const { minScale = 1, maxScale = 50 } = reactive(props)] *)
Definition minScale (c : Config) : Q :=
  match props_minScale c with Some m => m | None => 1 end.
Definition maxScale (c : Config) : Q :=
  match props_maxScale c with Some m => m | None => 50 end.

(** The component's state: one field per ref of [setup].

    Modelled from the spec: [useFrameSetState] is not part of the sources at
    hand.  Its contract is the spec's batched position store: [setPosition]
    schedules a value, the values scheduled before the next rendering tick
    collapse to the last one, and [position] keeps the last committed value
    until that tick.  [position] is the committed value and [queue] the
    scheduled one. *)
Record State : Set := mkState
  { scale : Q;
    rotate : Z;
    flip : Flip;
    position : Point;
    queue : option Point;
    mousePosition : Point;
    originPositionRef : OriginPosition;
    isMoving : bool;
    current : option Key;            (* the group context's current key *)
    lastWheelZoomDirection : Q;
    wheelWatch : bool;               (* the watcher of lastWheelZoomDirection is due *)
    lastZoomPosition : Point;
    hasWheelZoomed : bool }.

Definition initialState (cur : option Key) : State :=
  {| scale := 1; rotate := 0; flip := {| flip_x := 1; flip_y := 1 |};
     position := initialPosition; queue := None;
     mousePosition := {| x := 0; y := 0 |};
     originPositionRef := {| originX := 0; originY := 0; deltaX := 0; deltaY := 0 |};
     isMoving := false; current := cur;
     lastWheelZoomDirection := 0; wheelWatch := false;
     lastZoomPosition := {| x := 0; y := 0 |}; hasWheelZoomed := false |}.

(** Assignments to single refs. *)
Definition set_scale (v : Q) (s : State) : State :=
  mkState v (rotate s) (flip s) (position s) (queue s) (mousePosition s)
    (originPositionRef s) (isMoving s) (current s) (lastWheelZoomDirection s)
    (wheelWatch s) (lastZoomPosition s) (hasWheelZoomed s).
Definition set_rotate (v : Z) (s : State) : State :=
  mkState (scale s) v (flip s) (position s) (queue s) (mousePosition s)
    (originPositionRef s) (isMoving s) (current s) (lastWheelZoomDirection s)
    (wheelWatch s) (lastZoomPosition s) (hasWheelZoomed s).
Definition set_flip (v : Flip) (s : State) : State :=
  mkState (scale s) (rotate s) v (position s) (queue s) (mousePosition s)
    (originPositionRef s) (isMoving s) (current s) (lastWheelZoomDirection s)
    (wheelWatch s) (lastZoomPosition s) (hasWheelZoomed s).
Definition set_position (v : Point) (s : State) : State :=
  mkState (scale s) (rotate s) (flip s) v (queue s) (mousePosition s)
    (originPositionRef s) (isMoving s) (current s) (lastWheelZoomDirection s)
    (wheelWatch s) (lastZoomPosition s) (hasWheelZoomed s).
Definition set_queue (v : option Point) (s : State) : State :=
  mkState (scale s) (rotate s) (flip s) (position s) v (mousePosition s)
    (originPositionRef s) (isMoving s) (current s) (lastWheelZoomDirection s)
    (wheelWatch s) (lastZoomPosition s) (hasWheelZoomed s).
Definition set_mousePosition (v : Point) (s : State) : State :=
  mkState (scale s) (rotate s) (flip s) (position s) (queue s) v
    (originPositionRef s) (isMoving s) (current s) (lastWheelZoomDirection s)
    (wheelWatch s) (lastZoomPosition s) (hasWheelZoomed s).
Definition set_originPositionRef (v : OriginPosition) (s : State) : State :=
  mkState (scale s) (rotate s) (flip s) (position s) (queue s) (mousePosition s)
    v (isMoving s) (current s) (lastWheelZoomDirection s)
    (wheelWatch s) (lastZoomPosition s) (hasWheelZoomed s).
Definition set_isMoving (v : bool) (s : State) : State :=
  mkState (scale s) (rotate s) (flip s) (position s) (queue s) (mousePosition s)
    (originPositionRef s) v (current s) (lastWheelZoomDirection s)
    (wheelWatch s) (lastZoomPosition s) (hasWheelZoomed s).
Definition set_current (v : option Key) (s : State) : State :=
  mkState (scale s) (rotate s) (flip s) (position s) (queue s) (mousePosition s)
    (originPositionRef s) (isMoving s) v (lastWheelZoomDirection s)
    (wheelWatch s) (lastZoomPosition s) (hasWheelZoomed s).
Definition set_lastWheelZoomDirection (v : Q) (s : State) : State :=
  mkState (scale s) (rotate s) (flip s) (position s) (queue s) (mousePosition s)
    (originPositionRef s) (isMoving s) (current s) v
    (wheelWatch s) (lastZoomPosition s) (hasWheelZoomed s).
Definition set_wheelWatch (v : bool) (s : State) : State :=
  mkState (scale s) (rotate s) (flip s) (position s) (queue s) (mousePosition s)
    (originPositionRef s) (isMoving s) (current s) (lastWheelZoomDirection s)
    v (lastZoomPosition s) (hasWheelZoomed s).
Definition set_lastZoomPosition (v : Point) (s : State) : State :=
  mkState (scale s) (rotate s) (flip s) (position s) (queue s) (mousePosition s)
    (originPositionRef s) (isMoving s) (current s) (lastWheelZoomDirection s)
    (wheelWatch s) v (hasWheelZoomed s).
Definition set_hasWheelZoomed (v : bool) (s : State) : State :=
  mkState (scale s) (rotate s) (flip s) (position s) (queue s) (mousePosition s)
    (originPositionRef s) (isMoving s) (current s) (lastWheelZoomDirection s)
    (wheelWatch s) (lastZoomPosition s) v.

(** ** The batched position store *)

(** [setPosition(p)]: schedule [p]; a value scheduled earlier in the same
    tick is superseded. *)
Definition setPosition (p : Point) (s : State) : State := set_queue (Some p) s.

(** The rendering tick: the scheduled value, if any, becomes [position]. *)
Definition flushFrame (s : State) : State :=
  match queue s with
  | Some p => set_queue None (set_position p s)
  | None => s
  end.

(** The position shown once the next tick has passed. *)
Definition nextPosition (s : State) : Point := position (flushFrame s).

(** ** The handlers of [setup] *)

Section Handlers.

Variable cfg : Config.

(** Modelled from the spec: [getFixScaleEleTransPosition] (the boundary
    corrector) is not part of the sources at hand.  It receives the
    effective width and height and the page offset of the image, reads the
    client size, and answers [null] or a corrected position; it is taken as
    a parameter. *)
Variable getFixScaleEleTransPosition : Env -> Q -> Q -> Q -> Q -> option Point.

(** *** Group context *)

(** [previewUrls.value.size] *)
Definition previewGroupCount : Z := Z.of_nat (List.length (previewUrls cfg)).

(** [Array.from(previewUrls.value.keys())] *)
Definition previewUrlsKeys : list Key := List.map fst (previewUrls cfg).

(** [Array.prototype.indexOf]: the first index holding the value, [-1]
    when there is none. *)
Fixpoint indexOf_from (i : Z) (l : list Key) (k : Key) : Z :=
  match l with
  | [] => (-1)%Z
  | h :: t => if Z.eqb h k then i else indexOf_from (i + 1)%Z t k
  end.

Definition indexOf (l : list Key) (k : option Key) : Z :=
  match k with
  | Some k => indexOf_from 0%Z l k
  | None => (-1)%Z
  end.

(** [keys[i]]: [undefined] outside the array. *)
Definition at_index (l : list Key) (i : Z) : option Key :=
  if (i <? 0)%Z then None else nth_error l (Z.to_nat i).

Definition currentPreviewIndex (s : State) : Z :=
  indexOf previewUrlsKeys (current s).

Definition showLeftOrRightSwitches : bool :=
  isPreviewGroup cfg && (1 <? previewGroupCount)%Z.

(** Modelled from the spec: [setCurrent] belongs to the group context,
    which is not part of the sources at hand; it makes its argument the
    current key. *)
Definition setCurrent (k : option Key) (s : State) : State := set_current k s.

(** *** Close *)

Definition onAfterClose (s : State) : State :=
  let s := set_scale 1 s in
  let s := set_rotate 0 s in
  let s := set_flip {| flip_x := 1; flip_y := flip_y (flip s) |} s in
  let s := set_flip {| flip_x := flip_x (flip s); flip_y := 1 |} s in
  let s := setPosition initialPosition s in
  let s := set_hasWheelZoomed false s in
  set_lastZoomPosition {| x := 0; y := 0 |} s.

(** *** Zoom *)

(** The test of the shrink-to-fit branch of [dispatchZoomChange]:
    [ratio < 1 && newScale === 1], and the box at the new scale is no larger
    than the window. *)
Definition shrinkToFit (e : Env) (img : ImgElement) (ratio newScale : Q) : bool :=
  (Qlt_bool ratio 1 && Qeq_bool newScale 1)
  && (Qle_bool (offsetWidth img * newScale) (innerWidth e)
      && Qle_bool (offsetHeight img * newScale) (innerHeight e)).

(** [newScale] and [newRatio] after the two bound tests. *)
Definition boundedScale (old ratio : Q) : Q * Q :=
  let newScale := old * ratio in
  if Qgt_bool newScale (maxScale cfg) then (maxScale cfg, maxScale cfg / old)
  else if Qlt_bool newScale (minScale cfg) then (minScale cfg, minScale cfg / old)
  else (newScale, ratio).

Definition dispatchZoomChange (e : Env) (ratio : Q) (isWheel : bool)
    (centerX centerY : option Q) (s : State) : State :=
  match imgRef e with
  | None => s
  | Some img =>
    let '(newScale, newRatio) := boundedScale (scale s) ratio in
    let mergedCenterX :=
      match centerX with Some c => c | None => innerWidth e / 2 end in
    let mergedCenterY :=
      match centerY with Some c => c | None => innerHeight e / 2 end in
    let diffRatio := newRatio - 1 in
    let diffImgX := diffRatio * offsetWidth img * (1#2) in
    let diffImgY := diffRatio * offsetHeight img * (1#2) in
    let diffOffsetLeft :=
      diffRatio * (mergedCenterX - x (position s) - offsetLeft img) in
    let diffOffsetTop :=
      diffRatio * (mergedCenterY - y (position s) - offsetTop img) in
    let newX := x (position s) - (diffOffsetLeft - diffImgX) in
    let newY := y (position s) - (diffOffsetTop - diffImgY) in
    let fit := shrinkToFit e img ratio newScale in
    let s1 :=
      if fit && negb isWheel
      then set_lastZoomPosition {| x := 0; y := 0 |} (set_hasWheelZoomed false s)
      else s in
    let s2 := set_scale newScale s1 in
    setPosition (if fit then {| x := 0; y := 0 |} else {| x := newX; y := newY |}) s2
  end.

Definition onZoomIn (e : Env) (isWheel : bool) (s : State) : State :=
  if Qge_bool (scale s) (maxScale cfg) then s
  else if isWheel then
    let s := dispatchZoomChange e (3#2) true
               (Some (x (mousePosition s))) (Some (y (mousePosition s))) s in
    let s := set_lastZoomPosition
               {| x := x (mousePosition s); y := y (mousePosition s) |} s in
    set_hasWheelZoomed true s
  else if hasWheelZoomed s then
    dispatchZoomChange e 2 false
      (Some (x (lastZoomPosition s))) (Some (y (lastZoomPosition s))) s
  else dispatchZoomChange e 2 false None None s.

Definition onZoomOut (e : Env) (isWheel : bool) (s : State) : State :=
  if Qle_bool (scale s) (minScale cfg) then
    set_lastZoomPosition {| x := 0; y := 0 |} (set_hasWheelZoomed false s)
  else if isWheel then
    let s := dispatchZoomChange e (667#1000) true
               (Some (x (mousePosition s))) (Some (y (mousePosition s))) s in
    let s := set_lastZoomPosition
               {| x := x (mousePosition s); y := y (mousePosition s) |} s in
    set_hasWheelZoomed true s
  else if hasWheelZoomed s then
    dispatchZoomChange e (1#2) false
      (Some (x (lastZoomPosition s))) (Some (y (lastZoomPosition s))) s
  else dispatchZoomChange e (1#2) false None None s.

(** *** Rotate and flip *)

Definition onRotateRight (s : State) : State := set_rotate (rotate s + 90)%Z s.

Definition onRotateLeft (s : State) : State := set_rotate (rotate s - 90)%Z s.

Definition onFlipX (s : State) : State :=
  set_flip {| flip_x := (- flip_x (flip s))%Z; flip_y := flip_y (flip s) |} s.

Definition onFlipY (s : State) : State :=
  set_flip {| flip_x := flip_x (flip s); flip_y := (- flip_y (flip s))%Z |} s.

(** *** Group navigation by click *)

Definition onSwitchLeft (s : State) : State :=
  if (0 <? currentPreviewIndex s)%Z
  then setCurrent (at_index previewUrlsKeys (currentPreviewIndex s - 1)%Z) s
  else s.

Definition onSwitchRight (s : State) : State :=
  if (currentPreviewIndex s <? previewGroupCount - 1)%Z
  then setCurrent (at_index previewUrlsKeys (currentPreviewIndex s + 1)%Z) s
  else s.

(** *** Pointer *)

(** [onMouseUp] reads [imgRef.value.offsetWidth] without a test: on an
    unmounted image the first statement throws ([None]), before any
    assignment. *)
Definition onMouseUp (e : Env) (s : State) : option State :=
  if visible e && isMoving s then
    match imgRef e with
    | None => None
    | Some img =>
      let width := offsetWidth img * scale s in
      let height := offsetHeight img * scale s in
      let isRotate := negb (Z.eqb (Z.rem (rotate s) 180) 0) in
      let s := set_isMoving false s in
      let fixState :=
        getFixScaleEleTransPosition e
          (if isRotate then height else width)
          (if isRotate then width else height)
          (pageLeft img) (pageTop img) in
      match fixState with
      | Some p => Some (setPosition {| x := x p; y := y p |} s)
      | None => Some s
      end
    end
  else Some s.

Definition onMouseDown (ev : MouseEvent) (s : State) : State :=
  if negb (Z.eqb (button ev) 0) then s
  else
    let s := set_originPositionRef
               (mkOrigin (originX (originPositionRef s)) (originY (originPositionRef s))
                  (pageX ev - x (position s)) (deltaY (originPositionRef s))) s in
    let s := set_originPositionRef
               (mkOrigin (originX (originPositionRef s)) (originY (originPositionRef s))
                  (deltaX (originPositionRef s)) (pageY ev - y (position s))) s in
    let s := set_originPositionRef
               (mkOrigin (x (position s)) (originY (originPositionRef s))
                  (deltaX (originPositionRef s)) (deltaY (originPositionRef s))) s in
    let s := set_originPositionRef
               (mkOrigin (originX (originPositionRef s)) (y (position s))
                  (deltaX (originPositionRef s)) (deltaY (originPositionRef s))) s in
    set_isMoving true s.

Definition updateMousePosition (ev : MouseEvent) (s : State) : State :=
  set_mousePosition {| x := pageX ev; y := pageY ev |} s.

Definition onMouseMove (e : Env) (ev : MouseEvent) (s : State) : State :=
  let s := updateMousePosition ev s in
  if visible e && isMoving s then
    setPosition {| x := pageX ev - deltaX (originPositionRef s);
                   y := pageY ev - deltaY (originPositionRef s) |} s
  else s.

(** *** Wheel *)

(** [lastWheelZoomDirection] receives a fresh object, so its watcher becomes
    due at every wheel event on a visible preview. *)
Definition onWheelMove (e : Env) (wheelDeltaY : Q) (s : State) : State :=
  if negb (visible e) then s
  else set_wheelWatch true (set_lastWheelZoomDirection wheelDeltaY s).

(** The callback of [watch([lastWheelZoomDirection], ...)]. *)
Definition wheelWatcher (e : Env) (s : State) : State :=
  let wheelDirection := lastWheelZoomDirection s in
  if Qgt_bool wheelDirection 0 then onZoomOut e true s
  else if Qlt_bool wheelDirection 0 then onZoomIn e true s
  else s.

(** The scheduler runs the callback when the watcher is due. *)
Definition runWheelWatcher (e : Env) (s : State) : State :=
  if wheelWatch s then wheelWatcher e (set_wheelWatch false s) else s.

(** *** Keyboard *)

Definition onKeyDown (e : Env) (keyCode : Z) (s : State) : State :=
  if negb (visible e) || negb showLeftOrRightSwitches then s
  else if Z.eqb keyCode KeyCode.LEFT then
    if (0 <? currentPreviewIndex s)%Z
    then setCurrent (at_index previewUrlsKeys (currentPreviewIndex s - 1)%Z) s
    else s
  else if Z.eqb keyCode KeyCode.RIGHT then
    if (currentPreviewIndex s <? previewGroupCount - 1)%Z
    then setCurrent (at_index previewUrlsKeys (currentPreviewIndex s + 1)%Z) s
    else s
  else s.

(** *** Double click *)

Definition onDoubleClick (e : Env) (s : State) : State :=
  if visible e then
    let s := if Qneq_bool (scale s) 1 then set_scale 1 s else s in
    if Qneq_bool (x (position s)) (x initialPosition)
       || Qneq_bool (y (position s)) (y initialPosition)
    then setPosition initialPosition s
    else s
  else s.

(** ** The component as a transition system *)

Inductive Event : Set :=
| AfterClose
| ZoomIn (isWheel : bool)
| ZoomOut (isWheel : bool)
| RotateRight
| RotateLeft
| FlipX
| FlipY
| SwitchLeft
| SwitchRight
| MouseUp
| MouseDown (ev : MouseEvent)
| MouseMove (ev : MouseEvent)
| WheelMove (wheelDeltaY : Q)
| WheelWatcher
| KeyDown (keyCode : Z)
| DoubleClick
| Frame.

(** One event, handled in the environment found at that moment.  A handler
    that throws leaves the state as it was. *)
Definition step (e : Env) (ev : Event) (s : State) : State :=
  match ev with
  | AfterClose => onAfterClose s
  | ZoomIn w => onZoomIn e w s
  | ZoomOut w => onZoomOut e w s
  | RotateRight => onRotateRight s
  | RotateLeft => onRotateLeft s
  | FlipX => onFlipX s
  | FlipY => onFlipY s
  | SwitchLeft => onSwitchLeft s
  | SwitchRight => onSwitchRight s
  | MouseUp => match onMouseUp e s with Some s' => s' | None => s end
  | MouseDown m => onMouseDown m s
  | MouseMove m => onMouseMove e m s
  | WheelMove d => onWheelMove e d s
  | WheelWatcher => runWheelWatcher e s
  | KeyDown k => onKeyDown e k s
  | DoubleClick => onDoubleClick e s
  | Frame => flushFrame s
  end.

Fixpoint run (tr : list (Env * Event)) (s : State) : State :=
  match tr with
  | [] => s
  | (e, ev) :: tr' => run tr' (step e ev s)
  end.

(** The states the component can be in. *)
Definition reachable (s : State) : Prop :=
  exists cur tr, s = run tr (initialState cur).

End Handlers.

(** ** Definitions of the specification and concrete configurations *)

(** The spec's [clamp(v, lo, hi)]. *)
Definition clamp (v lo hi : Q) : Q := Qmax lo (Qmin v hi).

(** The focal point of a zoom on one axis: the argument when there is one,
    the middle of the window otherwise. *)
Definition focal (c : option Q) (windowSize : Q) : Q :=
  match c with Some c => c | None => windowSize / 2 end.

(** The spec's position formula on one axis, for an effective ratio [r]. *)
Definition zoomedCoordinate (old r focalPoint offset size : Q) : Q :=
  old - (r - 1) * ((focalPoint - old - offset) - size / 2).

(** The spec's wording of the shrink-to-fit condition. *)
Definition ShrinksToFit (e : Env) (img : ImgElement) (ratio newScale : Q) : Prop :=
  ratio < 1 /\ newScale == 1
  /\ offsetWidth img <= innerWidth e /\ offsetHeight img <= innerHeight e.

(** No [minScale] / [maxScale] prop, no group. *)
Definition defaultConfig : Config :=
  {| props_minScale := None; props_maxScale := None;
     isPreviewGroup := false; previewUrls := [] |}.

(** The prop [minScale = 60] with the default [maxScale = 50]. *)
Definition minAboveMaxConfig : Config :=
  {| props_minScale := Some 60; props_maxScale := None;
     isPreviewGroup := false; previewUrls := [] |}.

(** A boundary corrector that never corrects. *)
Definition noFix (_ : Env) (_ _ _ _ : Q) : option Point := None.

(** A 100 x 100 image laid out in the middle of a 1000 x 1000 window. *)
Definition smallImg : ImgElement :=
  {| offsetWidth := 100; offsetHeight := 100; offsetLeft := 450; offsetTop := 450;
     pageLeft := 450; pageTop := 450 |}.

Definition mountedEnv : Env :=
  {| visible := true; imgRef := Some smallImg;
     innerWidth := 1000; innerHeight := 1000 |}.

(** The same window before the image is mounted. *)
Definition unmountedEnv : Env :=
  {| visible := true; imgRef := None; innerWidth := 1000; innerHeight := 1000 |}.

(** Scale [3/2], dragged to [(10, 10)]. *)
Definition draggedState : State :=
  set_position {| x := 10; y := 10 |} (set_scale (3#2) (initialState None)).

(** The spec's [doubleClickReset]: if visible and (scale is not 1 or the
    position is not the origin), reset scale to 1 and position to the origin
    in one step. *)
Definition specDoubleClick (e : Env) (s : State) : State :=
  if visible e
     && (Qneq_bool (scale s) 1
         || (Qneq_bool (x (position s)) (x initialPosition)
             || Qneq_bool (y (position s)) (y initialPosition)))
  then setPosition initialPosition (set_scale 1 s)
  else s.

(** A wheel zoom towards the pointer at [(10, 10)], the tick not yet
    passed. *)
Definition wheelZoom : list (Env * Event) :=
  [ (mountedEnv, MouseMove {| button := 0; pageX := 10; pageY := 10 |});
    (mountedEnv, WheelMove (-1));
    (mountedEnv, WheelWatcher) ].

(** A drag from [(0, 0)] to [(5, 6)], and the tick that commits it. *)
Definition dragThenTick : list (Env * Event) :=
  [ (mountedEnv, MouseDown {| button := 0; pageX := 0; pageY := 0 |});
    (mountedEnv, MouseMove {| button := 0; pageX := 5; pageY := 6 |});
    (mountedEnv, Frame) ].

(** A wheel zoom towards the pointer at [(10, 10)] followed, within the same
    tick, by a double click. *)
Definition wheelThenDoubleClick : list (Env * Event) :=
  [ (mountedEnv, MouseMove {| button := 0; pageX := 10; pageY := 10 |});
    (mountedEnv, WheelMove (-1));
    (mountedEnv, WheelWatcher);
    (mountedEnv, DoubleClick) ].

Definition threeTurns : list (Env * Event) :=
  [ (mountedEnv, RotateLeft); (mountedEnv, RotateLeft); (mountedEnv, ZoomIn false);
    (mountedEnv, RotateLeft); (mountedEnv, FlipX) ].

(** A group of three images, the second one current. *)
Definition groupOfThree : Config :=
  {| props_minScale := None; props_maxScale := None; isPreviewGroup := true;
     previewUrls := [(1%Z, "a"%string); (2%Z, "b"%string); (3%Z, "c"%string)] |}.

Definition leftLeft : list (Env * Event) :=
  [ (mountedEnv, KeyDown KeyCode.LEFT); (mountedEnv, KeyDown KeyCode.LEFT) ].

(** [currentIndex] lies in [[0, count - 1]]. *)
Definition InRange (cfg : Config) (s : State) : Prop :=
  (0 <= currentPreviewIndex cfg s < previewGroupCount cfg)%Z.

(** [2 ^ n] *)
Fixpoint pow2 (n : nat) : Q :=
  match n with
  | O => 1
  | S n => 2 * pow2 n
  end.

(** The scale lies within the bounds. *)
Definition InBounds (cfg : Config) (s : State) : Prop :=
  minScale cfg <= scale s <= maxScale cfg.

(** Whenever no wheel zoom is remembered, the remembered focal point is the
    origin. *)
Definition MemoryCleared (s : State) : Prop :=
  hasWheelZoomed s = false -> lastZoomPosition s = {| x := 0; y := 0 |}.

(** An input event that arrives while the preview is hidden: pointer move or
    release, wheel, key press, double click. *)
Definition hiddenInput (p : Env * Event) : bool :=
  negb (visible (fst p))
  && match snd p with
     | MouseUp | MouseMove _ | WheelMove _ | KeyDown _ | DoubleClick => true
     | _ => false
     end.

(** A drag: the primary button goes down, then the pointer moves. *)
Definition primaryButton (px py : Q) : MouseEvent :=
  {| button := 0; pageX := px; pageY := py |}.

(** ** The reference-counted style cache ([useClientCache])

    [useClientCache] keeps, at the path of a component, an entry
    [[times, cache]]: how many mounted users the cache has, and the cache.
    The class [Cache] behind [styleContext.cache] is not part of the sources
    at hand; what is embedded are the two functions that [useClientCache]
    hands to [styleContext.cache.update], each from the previous entry at the
    path ([undefined] when there is none) to the next one ([null] removes
    it), together with the calls they make to [onCacheRemove] and
    [cacheFn]. *)

Section ClientCache.

Variable CacheType : Type.

(** Whether a cache value is truthy in JavaScript. *)
Variable truthy : CacheType -> bool.

(** Whether the optional [onCacheRemove] was passed. *)
Variable hasOnCacheRemove : bool.

(** [process.env.NODE_ENV === 'production'] *)
Variable production : bool.

(** The result of [useHMR()]. *)
Variable HMRUpdate : bool.

Variable cacheFn : unit -> CacheType.

(** [[times, cache]]; [cache] is [undefined] in an entry that was never
    created. *)
Definition Entry : Type := (Z * option CacheType)%type.

(** The calls an updater makes. *)
Inductive Effect : Type :=
| OnCacheRemove (cache : option CacheType) (fromHMR : bool)
| CacheFn.

(** [onCacheRemove?.(cache, fromHMR)] *)
Definition callOnCacheRemove (cache : option CacheType) (fromHMR : bool)
  : list Effect :=
  if hasOnCacheRemove then [OnCacheRemove cache fromHMR] else [].

(** [const [times = 0, cache] = prevCache || []] *)
Definition destructure (prevCache : option Entry) : Z * option CacheType :=
  match prevCache with
  | Some (times, cache) => (times, cache)
  | None => (0%Z, None)
  end.

(** Truthiness of a possibly undefined cache. *)
Definition isTruthy (cache : option CacheType) : bool :=
  match cache with Some c => truthy c | None => false end.

(** The updater of [clearCache]. *)
Definition clearCacheUpdater (prevCache : option Entry)
  : option Entry * list Effect :=
  let '(times, cache) := destructure prevCache in
  let nextCount := (times - 1)%Z in
  if (nextCount =? 0)%Z then (None, callOnCacheRemove cache false)
  else (Some ((times - 1)%Z, cache), []).

(** The updater of the watcher that creates the cache. *)
Definition createCacheUpdater (prevCache : option Entry)
  : option Entry * list Effect :=
  let '(times, cache) := destructure prevCache in
  let hmr := negb production && isTruthy cache && HMRUpdate in
  let removed := if hmr then callOnCacheRemove cache HMRUpdate else [] in
  let tmpCache := if hmr then None else cache in
  if isTruthy tmpCache
  then (Some ((times + 1)%Z, tmpCache), removed)
  else (Some ((times + 1)%Z, Some (cacheFn tt)), removed ++ [CacheFn]).

(** An updater applied to the entry an earlier one left, the calls
    accumulating in order. *)
Definition andThen (r : option Entry * list Effect)
    (f : option Entry -> option Entry * list Effect)
  : option Entry * list Effect :=
  let '(entry, calls) := r in
  let '(entry', calls') := f entry in
  (entry', calls ++ calls').

(** [n] successive applications of one updater. *)
Fixpoint repeatUpdater (n : nat)
    (f : option Entry -> option Entry * list Effect)
    (r : option Entry * list Effect) : option Entry * list Effect :=
  match n with
  | O => r
  | S n => repeatUpdater n f (andThen r f)
  end.

End ClientCache.

(** ** Comparisons on [Q] *)

Lemma Qlt_bool_iff (a b : Q) : Qlt_bool a b = true <-> a < b.
Proof.
  unfold Qlt_bool. rewrite negb_true_iff.
  destruct (Qle_bool b a) eqn:E.
  - apply Qle_bool_iff in E. split; [discriminate | intro H; exfalso; lra].
  - split; [intros _ | reflexivity].
    destruct (Qlt_le_dec a b) as [H|H]; [exact H|].
    apply Qle_bool_iff in H. congruence.
Qed.

Lemma Qlt_bool_false (a b : Q) : Qlt_bool a b = false <-> b <= a.
Proof.
  unfold Qlt_bool. rewrite negb_false_iff. apply Qle_bool_iff.
Qed.

Lemma Qle_bool_false (a b : Q) : Qle_bool a b = false <-> b < a.
Proof.
  rewrite <- (Qlt_bool_iff b a). unfold Qlt_bool.
  destruct (Qle_bool a b); simpl; split; congruence.
Qed.

Lemma Qneq_bool_false (a b : Q) : Qneq_bool a b = false <-> a == b.
Proof.
  unfold Qneq_bool. rewrite negb_false_iff. apply Qeq_bool_iff.
Qed.

Lemma Qneq_bool_true (a b : Q) : Qneq_bool a b = true <-> ~ a == b.
Proof.
  unfold Qneq_bool. rewrite negb_true_iff. split.
  - apply Qeq_bool_neq.
  - intro H. destruct (Qeq_bool a b) eqn:E; [|reflexivity].
    apply Qeq_bool_iff in E. contradiction.
Qed.

(** ** The batched position store *)

Lemma nextPosition_setPosition (p : Point) (s : State) :
  nextPosition (setPosition p s) = p.
Proof. reflexivity. Qed.

Lemma nextPosition_idle (s : State) :
  queue s = None -> nextPosition s = position s.
Proof. unfold nextPosition, flushFrame. intros ->. reflexivity. Qed.

(** ** Zoom: scale bounds and the position formula *)

Lemma shrinkToFit_iff (e : Env) (img : ImgElement) (ratio newScale : Q) :
  shrinkToFit e img ratio newScale = true <-> ShrinksToFit e img ratio newScale.
Proof.
  unfold shrinkToFit, ShrinksToFit.
  rewrite !andb_true_iff, Qlt_bool_iff, Qeq_bool_iff, !Qle_bool_iff.
  split.
  - intros [[Hr Hs] [Hw Hh]]. rewrite Hs in Hw, Hh.
    split; [exact Hr|]. split; [exact Hs|]. split; lra.
  - intros (Hr & Hs & Hw & Hh). rewrite Hs.
    split; [split; [exact Hr | reflexivity] | split; lra].
Qed.

Lemma shrinkToFit_false_iff (e : Env) (img : ImgElement) (ratio newScale : Q) :
  shrinkToFit e img ratio newScale = false <-> ~ ShrinksToFit e img ratio newScale.
Proof.
  rewrite <- shrinkToFit_iff. destruct (shrinkToFit e img ratio newScale).
  - split; [discriminate | intro H; exfalso; apply H; reflexivity].
  - split; [intros _; discriminate | reflexivity].
Qed.

Section Zoom.

Variable cfg : Config.

Lemma boundedScale_clamp (old ratio : Q) :
  minScale cfg <= maxScale cfg ->
  fst (boundedScale cfg old ratio)
  == clamp (old * ratio) (minScale cfg) (maxScale cfg).
Proof.
  intros Hmm. unfold boundedScale, clamp, Qgt_bool.
  destruct (Q.min_spec (old * ratio) (maxScale cfg)) as [[H1 E1]|[H1 E1]];
    destruct (Q.max_spec (minScale cfg) (Qmin (old * ratio) (maxScale cfg)))
      as [[H2 E2]|[H2 E2]];
    rewrite E2; rewrite E1 in *;
    destruct (Qlt_bool (maxScale cfg) (old * ratio)) eqn:Emax;
    try (apply Qlt_bool_iff in Emax); try (apply Qlt_bool_false in Emax);
    simpl; try lra;
    destruct (Qlt_bool (old * ratio) (minScale cfg)) eqn:Emin;
    try (apply Qlt_bool_iff in Emin); try (apply Qlt_bool_false in Emin);
    simpl; lra.
Qed.

Lemma boundedScale_range (old ratio : Q) :
  minScale cfg <= maxScale cfg ->
  minScale cfg <= fst (boundedScale cfg old ratio) <= maxScale cfg.
Proof.
  intros Hmm. unfold boundedScale, Qgt_bool.
  destruct (Qlt_bool (maxScale cfg) (old * ratio)) eqn:Emax; simpl; [lra|].
  apply Qlt_bool_false in Emax.
  destruct (Qlt_bool (old * ratio) (minScale cfg)) eqn:Emin; simpl; [lra|].
  apply Qlt_bool_false in Emin. lra.
Qed.

(** [newRatio] is the ratio that was applied. *)
Lemma boundedScale_ratio (old ratio : Q) :
  ~ old == 0 ->
  snd (boundedScale cfg old ratio) == fst (boundedScale cfg old ratio) / old.
Proof.
  intros Hold. unfold boundedScale.
  destruct (Qgt_bool (old * ratio) (maxScale cfg)); simpl; [reflexivity|].
  destruct (Qlt_bool (old * ratio) (minScale cfg)); simpl; [reflexivity|].
  field. exact Hold.
Qed.

Lemma dispatchZoomChange_scale (e : Env) (img : ImgElement) (ratio : Q)
    (isWheel : bool) (cx cy : option Q) (s : State) :
  imgRef e = Some img ->
  scale (dispatchZoomChange cfg e ratio isWheel cx cy s)
  = fst (boundedScale cfg (scale s) ratio).
Proof.
  intros Himg. unfold dispatchZoomChange. rewrite Himg.
  destruct (boundedScale cfg (scale s) ratio) as [newScale newRatio].
  reflexivity.
Qed.

Lemma dispatchZoomChange_position (e : Env) (img : ImgElement) (ratio : Q)
    (isWheel : bool) (cx cy : option Q) (s : State) :
  imgRef e = Some img ->
  nextPosition (dispatchZoomChange cfg e ratio isWheel cx cy s)
  = if shrinkToFit e img ratio (fst (boundedScale cfg (scale s) ratio))
    then {| x := 0; y := 0 |}
    else
      let d := snd (boundedScale cfg (scale s) ratio) - 1 in
      {| x := x (position s)
              - (d * (focal cx (innerWidth e) - x (position s) - offsetLeft img)
                 - d * offsetWidth img * (1#2));
         y := y (position s)
              - (d * (focal cy (innerHeight e) - y (position s) - offsetTop img)
                 - d * offsetHeight img * (1#2)) |}.
Proof.
  intros Himg. unfold dispatchZoomChange. rewrite Himg.
  destruct (boundedScale cfg (scale s) ratio) as [newScale newRatio].
  cbn [fst snd]. rewrite nextPosition_setPosition. reflexivity.
Qed.

End Zoom.

(** ** The scenarios of the specification *)

(** From scale 1, a button zoom-in with no earlier wheel zoom doubles the
    scale; the centred image stays where it is. *)
Example zoomIn_button_from_1 :
  let s' := onZoomIn defaultConfig mountedEnv false (initialState None) in
  scale s' == 2 /\ x (nextPosition s') == 0 /\ y (nextPosition s') == 0
  /\ hasWheelZoomed s' = false.
Proof. cbv zeta. repeat split. Qed.

(** From scale 5, a button zoom-out halves the scale and does not snap. *)
Example zoomOut_button_from_5 :
  let s' := onZoomOut defaultConfig mountedEnv false
              (set_position {| x := 8; y := 0 |} (set_scale 5 (initialState None))) in
  scale s' == 5#2 /\ x (nextPosition s') == 4.
Proof. cbv zeta. split; vm_compute; reflexivity. Qed.

(** A wheel zoom-in records the pointer as the focal point of later button
    zooms. *)
Example zoomIn_wheel_records_pointer :
  let s := set_mousePosition {| x := 10; y := 20 |} (initialState None) in
  let s' := onZoomIn defaultConfig mountedEnv true s in
  scale s' == 3#2 /\ hasWheelZoomed s' = true
  /\ lastZoomPosition s' = {| x := 10; y := 20 |}
  /\ x (nextPosition s') == 245.
Proof. cbv zeta. repeat split. Qed.

(** ** C1: scale bounds and position of a zoom *)

(** C1, as stated, fails.  First, a zoom by [1/2] from scale [3/2] is clamped
    to scale [1] (effective ratio [2/3]); the small image fits in the window,
    so the position is [(0, 0)] and not the value [10 - 10/3] of the position
    formula.  Second, with the prop [minScale = 60] above the default
    [maxScale = 50], a zoom by 2 from scale 1 ends at scale 60, outside
    [[minScale, maxScale]]. *)
Lemma dispatchZoomChange_formula_fails_on_fit :
  (let s' := dispatchZoomChange defaultConfig mountedEnv (1#2) false None None
               draggedState in
   imgRef mountedEnv = Some smallImg
   /\ scale s' == clamp (scale draggedState * (1#2)) 1 50
   /\ ~ scale s' == scale draggedState * (1#2)
   /\ nextPosition s' = {| x := 0; y := 0 |}
   /\ ~ x (nextPosition s')
        == zoomedCoordinate (x (position draggedState))
             (scale s' / scale draggedState)
             (focal None (innerWidth mountedEnv))
             (offsetLeft smallImg) (offsetWidth smallImg))
  /\ (let s' := dispatchZoomChange minAboveMaxConfig mountedEnv 2 false None None
                  (initialState None) in
      scale s' == 60
      /\ ~ (minScale minAboveMaxConfig <= scale s' <= maxScale minAboveMaxConfig)).
Proof.
  cbv zeta. split.
  - split; [reflexivity|]. split; [vm_compute; reflexivity|].
    split; [intro H; vm_compute in H; discriminate|].
    split; [reflexivity|].
    intro H; vm_compute in H; discriminate.
  - split; [vm_compute; reflexivity|].
    intros [_ H]. vm_compute in H. apply H. reflexivity.
Qed.

(** C1 (amended): with the image mounted, when [minScale <= maxScale] the
    scale after [dispatchZoomChange] is [clamp(old * ratio, minScale,
    maxScale)] and lies in [[minScale, maxScale]]; when the old scale is not 0
    and the zoom does not shrink to fit (ratio below 1, new scale 1, box no
    larger than the window), the position committed at the next tick is, on
    each axis, the position formula at the effective ratio
    [newScale / oldScale], around the focal argument or else the middle of the
    window. *)
Theorem dispatchZoomChange_clamps_and_recentres
    (cfg : Config) (e : Env) (img : ImgElement) (ratio : Q) (isWheel : bool)
    (cx cy : option Q) (s : State) :
  imgRef e = Some img ->
  let s' := dispatchZoomChange cfg e ratio isWheel cx cy s in
  let r := scale s' / scale s in
  (minScale cfg <= maxScale cfg ->
   scale s' == clamp (scale s * ratio) (minScale cfg) (maxScale cfg)
   /\ minScale cfg <= scale s' <= maxScale cfg)
  /\ (~ scale s == 0 ->
      ~ ShrinksToFit e img ratio (scale s') ->
      x (nextPosition s')
      == zoomedCoordinate (x (position s)) r (focal cx (innerWidth e))
           (offsetLeft img) (offsetWidth img)
      /\ y (nextPosition s')
         == zoomedCoordinate (y (position s)) r (focal cy (innerHeight e))
              (offsetTop img) (offsetHeight img)).
Proof.
  intros Himg s' r. subst s' r.
  rewrite (@dispatchZoomChange_position cfg e img ratio isWheel cx cy s Himg).
  rewrite (@dispatchZoomChange_scale cfg e img ratio isWheel cx cy s Himg).
  split.
  - intros Hmm.
    split; [apply boundedScale_clamp | apply boundedScale_range]; exact Hmm.
  - intros Hold Hfit. apply shrinkToFit_false_iff in Hfit. rewrite Hfit.
    pose proof (@boundedScale_ratio cfg (scale s) ratio Hold) as Hr.
    cbn [x y]. unfold zoomedCoordinate. rewrite <- Hr.
    split; field.
Qed.

Lemma dispatchZoomChange_clamps_and_recentres_witness :
  let s' := dispatchZoomChange defaultConfig mountedEnv 100 false None (Some 7)
              draggedState in
  imgRef mountedEnv = Some smallImg
  /\ minScale defaultConfig <= maxScale defaultConfig
  /\ ~ scale draggedState == 0
  /\ ~ ShrinksToFit mountedEnv smallImg 100 (scale s')
  /\ scale s' == 50
  /\ x (nextPosition s') == zoomedCoordinate 10 (50 / (3#2)) 500 450 100.
Proof.
  cbv zeta.
  assert (Himg : imgRef mountedEnv = Some smallImg) by reflexivity.
  assert (Hmm : minScale defaultConfig <= maxScale defaultConfig)
    by (vm_compute; discriminate).
  assert (Hold : ~ scale draggedState == 0)
    by (intro H; vm_compute in H; discriminate).
  assert (Hfit : ~ ShrinksToFit mountedEnv smallImg 100
                     (scale (dispatchZoomChange defaultConfig mountedEnv 100
                               false None (Some 7) draggedState))).
  { intros [H _]. vm_compute in H. discriminate. }
  destruct (@dispatchZoomChange_clamps_and_recentres defaultConfig mountedEnv
              smallImg 100 false None (Some 7) draggedState Himg)
    as (Hs & Hp).
  destruct (Hs Hmm) as [Hc _].
  destruct (Hp Hold Hfit) as [Hx _].
  split; [exact Himg|]. split; [exact Hmm|]. split; [exact Hold|].
  split; [exact Hfit|]. split.
  - rewrite Hc. vm_compute. reflexivity.
  - rewrite Hx. vm_compute. reflexivity.
Defined.

(** ** C2: shrinking to fit *)

(** C2: with the image mounted, a zoom of ratio below 1 whose new scale is 1
    and whose unscaled box is no larger than the window commits the position
    [(0, 0)]; the wheel-zoom memory is cleared when the zoom is not
    wheel-originated and is left as it was when it is. *)
Theorem dispatchZoomChange_shrink_to_fit
    (cfg : Config) (e : Env) (img : ImgElement) (ratio : Q) (isWheel : bool)
    (cx cy : option Q) (s : State) :
  imgRef e = Some img ->
  let s' := dispatchZoomChange cfg e ratio isWheel cx cy s in
  ratio < 1 ->
  scale s' == 1 ->
  offsetWidth img <= innerWidth e ->
  offsetHeight img <= innerHeight e ->
  queue s' = Some {| x := 0; y := 0 |}
  /\ nextPosition s' = {| x := 0; y := 0 |}
  /\ (isWheel = false ->
      hasWheelZoomed s' = false /\ lastZoomPosition s' = {| x := 0; y := 0 |})
  /\ (isWheel = true ->
      hasWheelZoomed s' = hasWheelZoomed s
      /\ lastZoomPosition s' = lastZoomPosition s).
Proof.
  intros Himg s' Hr Hs Hw Hh.
  assert (Hfit : shrinkToFit e img ratio (fst (boundedScale cfg (scale s) ratio))
                 = true).
  { apply shrinkToFit_iff. repeat split; try assumption.
    subst s'.
    rewrite (@dispatchZoomChange_scale cfg e img ratio isWheel cx cy s Himg) in Hs.
    exact Hs. }
  subst s'. unfold dispatchZoomChange in *. rewrite Himg in *.
  destruct (boundedScale cfg (scale s) ratio) as [newScale newRatio].
  cbn [fst snd] in *. rewrite Hfit.
  split; [reflexivity|]. split; [reflexivity|].
  split; intros ->; split; reflexivity.
Qed.

Lemma dispatchZoomChange_shrink_to_fit_witness :
  let s' := dispatchZoomChange defaultConfig mountedEnv (1#2) false
              (Some 3) (Some 4) (set_hasWheelZoomed true draggedState) in
  nextPosition s' = {| x := 0; y := 0 |} /\ hasWheelZoomed s' = false.
Proof.
  cbv zeta.
  assert (Himg : imgRef mountedEnv = Some smallImg) by reflexivity.
  destruct (@dispatchZoomChange_shrink_to_fit defaultConfig mountedEnv smallImg
              (1#2) false (Some 3) (Some 4)
              (set_hasWheelZoomed true draggedState) Himg)
    as (_ & Hp & Hb & _).
  - reflexivity.
  - vm_compute. reflexivity.
  - vm_compute. discriminate.
  - vm_compute. discriminate.
  - split; [exact Hp | apply Hb; reflexivity].
Defined.

(** ** C3: zooming out at the lower bound *)

(** C3: [onZoomOut], wheel- or button-originated, called while the scale is
    [minScale], keeps scale, position, rotation and flip, and resets the
    wheel-zoom memory. *)
Theorem onZoomOut_at_minScale
    (cfg : Config) (e : Env) (isWheel : bool) (s : State) :
  scale s == minScale cfg ->
  let s' := onZoomOut cfg e isWheel s in
  scale s' = scale s
  /\ position s' = position s /\ queue s' = queue s
  /\ rotate s' = rotate s
  /\ flip s' = flip s
  /\ hasWheelZoomed s' = false
  /\ lastZoomPosition s' = {| x := 0; y := 0 |}.
Proof.
  intros Hs s'. subst s'. unfold onZoomOut.
  assert (H : Qle_bool (scale s) (minScale cfg) = true)
    by (apply Qle_bool_iff; rewrite Hs; apply Qle_refl).
  rewrite H. repeat split.
Qed.

Lemma onZoomOut_at_minScale_witness :
  let s := set_hasWheelZoomed true
             (set_lastZoomPosition {| x := 3; y := 4 |} (initialState None)) in
  let s' := onZoomOut defaultConfig mountedEnv true s in
  scale s' = 1 /\ hasWheelZoomed s' = false
  /\ lastZoomPosition s' = {| x := 0; y := 0 |}.
Proof.
  cbv zeta.
  destruct (@onZoomOut_at_minScale defaultConfig mountedEnv true
              (set_hasWheelZoomed true
                 (set_lastZoomPosition {| x := 3; y := 4 |} (initialState None))))
    as (Hs & _ & _ & _ & _ & Hz & Hl).
  - reflexivity.
  - split; [exact Hs | split; [exact Hz | exact Hl]].
Defined.

(** ** C8: zooming before the image is mounted *)

(** C8, as stated, fails: a wheel-originated [onZoomIn] on an unmounted image
    zooms nothing but still sets [hasWheelZoomed]. *)
Lemma onZoomIn_unmounted_touches_memory :
  imgRef unmountedEnv = None
  /\ hasWheelZoomed (initialState None) = false
  /\ hasWheelZoomed (onZoomIn defaultConfig unmountedEnv true (initialState None))
     = true.
Proof. repeat split. Qed.

Lemma dispatchZoomChange_unmounted
    (cfg : Config) (e : Env) (ratio : Q) (isWheel : bool) (cx cy : option Q)
    (s : State) :
  imgRef e = None -> dispatchZoomChange cfg e ratio isWheel cx cy s = s.
Proof. intros H. unfold dispatchZoomChange. rewrite H. reflexivity. Qed.

(** C8 (amended): while the image is unmounted, [dispatchZoomChange] changes
    nothing at all, and [onZoomIn] and [onZoomOut] leave scale, position,
    rotation and flip as they were; a button-originated [onZoomIn], and a
    button-originated [onZoomOut] above [minScale], change nothing at all. *)
Theorem zoom_unmounted_noop (cfg : Config) (e : Env) (s : State) :
  imgRef e = None ->
  (forall ratio isWheel cx cy, dispatchZoomChange cfg e ratio isWheel cx cy s = s)
  /\ (forall isWheel,
        let s' := onZoomIn cfg e isWheel s in
        scale s' = scale s /\ position s' = position s /\ queue s' = queue s
        /\ rotate s' = rotate s /\ flip s' = flip s)
  /\ (forall isWheel,
        let s' := onZoomOut cfg e isWheel s in
        scale s' = scale s /\ position s' = position s /\ queue s' = queue s
        /\ rotate s' = rotate s /\ flip s' = flip s)
  /\ onZoomIn cfg e false s = s
  /\ (minScale cfg < scale s -> onZoomOut cfg e false s = s).
Proof.
  intros Himg.
  split; [intros; apply dispatchZoomChange_unmounted; exact Himg|].
  split; [|split; [|split]].
  - intros isWheel. cbv zeta. unfold onZoomIn.
    destruct (Qge_bool (scale s) (maxScale cfg)); [repeat split|].
    destruct isWheel, (hasWheelZoomed s);
      rewrite !dispatchZoomChange_unmounted by exact Himg; repeat split.
  - intros isWheel. cbv zeta. unfold onZoomOut.
    destruct (Qle_bool (scale s) (minScale cfg)); [repeat split|].
    destruct isWheel, (hasWheelZoomed s);
      rewrite !dispatchZoomChange_unmounted by exact Himg; repeat split.
  - unfold onZoomIn.
    destruct (Qge_bool (scale s) (maxScale cfg)); [reflexivity|].
    destruct (hasWheelZoomed s); apply dispatchZoomChange_unmounted; exact Himg.
  - intros Hlt. unfold onZoomOut.
    apply Qle_bool_false in Hlt. rewrite Hlt.
    destruct (hasWheelZoomed s); apply dispatchZoomChange_unmounted; exact Himg.
Qed.

Lemma zoom_unmounted_noop_witness :
  dispatchZoomChange defaultConfig unmountedEnv 2 true None None draggedState
  = draggedState
  /\ onZoomOut defaultConfig unmountedEnv false draggedState = draggedState.
Proof.
  destruct (@zoom_unmounted_noop defaultConfig unmountedEnv draggedState eq_refl)
    as (Hd & _ & _ & _ & Ho).
  split; [apply Hd | apply Ho].
  vm_compute. reflexivity.
Defined.

(** ** C4: rotation *)

(** C4, as stated, fails: [onRotateLeft] takes 90 degrees off, it does not
    add them, and [onRotateRight] adds them. *)
Lemma onRotateLeft_subtracts :
  rotate (onRotateLeft (initialState None)) = (-90)%Z
  /\ rotate (onRotateLeft (initialState None))
     <> (rotate (initialState None) + 90)%Z
  /\ rotate (onRotateRight (initialState None))
     <> (rotate (initialState None) - 90)%Z.
Proof. repeat split; discriminate. Qed.

Lemma iter_onRotateRight (n : nat) (s : State) :
  rotate (Nat.iter n onRotateRight s) = (rotate s + 90 * Z.of_nat n)%Z.
Proof.
  induction n as [|n IH].
  - simpl. lia.
  - change (Nat.iter (S n) onRotateRight s)
      with (onRotateRight (Nat.iter n onRotateRight s)).
    unfold onRotateRight at 1. cbn [rotate set_rotate]. rewrite IH. lia.
Qed.

Lemma iter_onRotateLeft (n : nat) (s : State) :
  rotate (Nat.iter n onRotateLeft s) = (rotate s - 90 * Z.of_nat n)%Z.
Proof.
  induction n as [|n IH].
  - simpl. lia.
  - change (Nat.iter (S n) onRotateLeft s)
      with (onRotateLeft (Nat.iter n onRotateLeft s)).
    unfold onRotateLeft at 1. cbn [rotate set_rotate]. rewrite IH. lia.
Qed.

(** C4 (amended): [onRotateLeft] subtracts 90 degrees and [onRotateRight]
    adds 90 degrees; the amounts accumulate without wraparound ([n] rotations
    move the angle by [90 * n]), and neither changes scale, position or
    flip. *)
Theorem rotate_accumulates (s : State) :
  rotate (onRotateLeft s) = (rotate s - 90)%Z
  /\ rotate (onRotateRight s) = (rotate s + 90)%Z
  /\ (forall n, rotate (Nat.iter n onRotateLeft s)
                = (rotate s - 90 * Z.of_nat n)%Z)
  /\ (forall n, rotate (Nat.iter n onRotateRight s)
                = (rotate s + 90 * Z.of_nat n)%Z)
  /\ (scale (onRotateLeft s) = scale s /\ position (onRotateLeft s) = position s
      /\ queue (onRotateLeft s) = queue s /\ flip (onRotateLeft s) = flip s)
  /\ (scale (onRotateRight s) = scale s /\ position (onRotateRight s) = position s
      /\ queue (onRotateRight s) = queue s /\ flip (onRotateRight s) = flip s).
Proof.
  split; [reflexivity|]. split; [reflexivity|].
  split; [intro n; apply iter_onRotateLeft|].
  split; [intro n; apply iter_onRotateRight|].
  repeat split.
Qed.

(** ** C5: double click *)

(** C5, as stated, fails: the double click tests the committed position,
    which is still the origin, and so leaves the position scheduled by the
    zoom in place; at the next tick the scale is 1 and the position is not
    the origin. *)
Lemma onDoubleClick_keeps_scheduled_position :
  let s := run defaultConfig noFix wheelThenDoubleClick (initialState None) in
  visible mountedEnv = true
  /\ scale s == 1
  /\ ~ x (nextPosition s) == 0
  /\ ~ x (position (run defaultConfig noFix [(mountedEnv, Frame)] s)) == 0.
Proof.
  cbv zeta. split; [reflexivity|]. split; [vm_compute; reflexivity|].
  split; intro H; vm_compute in H; discriminate.
Qed.

(** C5 (defect of the code): right after a wheel zoom, before the tick, the
    preview is visible with scale [3/2], the committed position still at the
    origin and [(245, 245)] scheduled.  [onDoubleClick] sets the scale to 1
    but, testing the committed position, skips [setPosition]: the scheduled
    position stays and is shown at the next tick, where the claim has the
    origin.  The reset of the specification, which tests scale and position
    together, schedules the origin there. *)
Theorem onDoubleClick_misses_reset :
  let s := run defaultConfig noFix wheelZoom (initialState None) in
  let s' := onDoubleClick mountedEnv s in
  (visible mountedEnv = true
   /\ scale s == 3#2
   /\ x (position s) == 0 /\ y (position s) == 0
   /\ x (nextPosition s) == 245 /\ y (nextPosition s) == 245)
  /\ (scale s' == 1
      /\ queue s' = queue s
      /\ x (nextPosition s') == 245 /\ y (nextPosition s') == 245
      /\ ~ (x (nextPosition s') == 0 /\ y (nextPosition s') == 0))
  /\ (scale (specDoubleClick mountedEnv s) == 1
      /\ nextPosition (specDoubleClick mountedEnv s) = {| x := 0; y := 0 |}).
Proof.
  cbv zeta. split; [|split].
  - repeat split; vm_compute; reflexivity.
  - split; [vm_compute; reflexivity|]. split; [reflexivity|].
    split; [vm_compute; reflexivity|]. split; [vm_compute; reflexivity|].
    intros [H _]. vm_compute in H. discriminate.
  - split; [vm_compute; reflexivity | reflexivity].
Qed.

(** Where the position test of [onDoubleClick] reads an up-to-date value
    (the committed position is not the origin, or nothing is scheduled), a
    double click on a visible preview leaves scale 1 and, at the next tick,
    position [(0, 0)]; on every visible preview it leaves scale 1 and does
    not change rotation or flip; on a preview that is not visible it changes
    nothing. *)
Theorem onDoubleClick_resets (e : Env) (s : State) :
  let s' := onDoubleClick e s in
  (visible e = true ->
   scale s' == 1 /\ rotate s' = rotate s /\ flip s' = flip s)
  /\ (visible e = true ->
      queue s = None \/ ~ (x (position s) == 0 /\ y (position s) == 0) ->
      x (nextPosition s') == 0 /\ y (nextPosition s') == 0)
  /\ (visible e = false -> s' = s).
Proof.
  cbv zeta. unfold onDoubleClick.
  split; [|split].
  - intros ->.
    destruct (Qneq_bool (scale s) 1) eqn:Es.
    + match goal with
      | |- context [if ?b then _ else _] => destruct b
      end; repeat split; reflexivity.
    + apply Qneq_bool_false in Es.
      match goal with
      | |- context [if ?b then _ else _] => destruct b
      end; repeat split; exact Es.
  - intros -> Hq.
    assert (Hpos : forall t : State,
               position t = position s -> queue t = queue s ->
               let t' := if Qneq_bool (x (position t)) (x initialPosition)
                            || Qneq_bool (y (position t)) (y initialPosition)
                         then setPosition initialPosition t else t in
               x (nextPosition t') == 0 /\ y (nextPosition t') == 0).
    { intros t Hp Hqt. cbv zeta. rewrite Hp.
      destruct (Qneq_bool (x (position s)) (x initialPosition)) eqn:Ex;
        [split; reflexivity|].
      destruct (Qneq_bool (y (position s)) (y initialPosition)) eqn:Ey;
        [split; reflexivity|].
      apply Qneq_bool_false in Ex, Ey. cbn [orb].
      destruct Hq as [Hq | Hq]; [|exfalso; apply Hq; split; assumption].
      rewrite nextPosition_idle by congruence.
      rewrite Hp. split; assumption. }
    destruct (Qneq_bool (scale s) 1); apply Hpos; reflexivity.
  - intros ->. reflexivity.
Qed.

Lemma onDoubleClick_resets_witness :
  let s' := onDoubleClick mountedEnv draggedState in
  scale s' == 1 /\ x (nextPosition s') == 0 /\ y (nextPosition s') == 0
  /\ onDoubleClick (mkEnv false None 0 0) draggedState = draggedState.
Proof.
  cbv zeta.
  destruct (onDoubleClick_resets mountedEnv draggedState) as (Ha & Hb & _).
  destruct (onDoubleClick_resets (mkEnv false None 0 0) draggedState)
    as (_ & _ & Hc).
  destruct (Ha eq_refl) as (Hs & _ & _).
  destruct (Hb eq_refl (or_introl eq_refl)) as (Hx & Hy).
  split; [exact Hs|]. split; [exact Hx|]. split; [exact Hy|].
  apply Hc. reflexivity.
Defined.

(** ** C6: reset after close *)

(** C6, as stated, fails: after a drag to [(5, 6)] has been committed,
    [onAfterClose] leaves the position at [(5, 6)]; the origin is only
    scheduled, and is the position once the next tick has passed. *)
Lemma onAfterClose_position_waits_for_tick :
  let s := run defaultConfig noFix dragThenTick (initialState None) in
  let s' := onAfterClose s in
  x (position s') == 5 /\ y (position s') == 6
  /\ ~ (x (position s') == 0 /\ y (position s') == 0)
  /\ position (flushFrame s') = {| x := 0; y := 0 |}.
Proof.
  cbv zeta. split; [vm_compute; reflexivity|]. split; [vm_compute; reflexivity|].
  split; [|reflexivity].
  intros [H _]. vm_compute in H. discriminate.
Qed.

(** C6 (amended): after [onAfterClose], from any state, scale is 1, rotation
    0 and flip [{x: 1, y: 1}], and the wheel-zoom memory is cleared; the
    position is as it was, the origin is scheduled, and the position
    committed at the next tick is [(0, 0)]. *)
Theorem onAfterClose_defaults (s : State) :
  let s' := onAfterClose s in
  scale s' = 1
  /\ rotate s' = 0%Z
  /\ flip s' = {| flip_x := 1; flip_y := 1 |}
  /\ position s' = position s
  /\ queue s' = Some initialPosition
  /\ nextPosition s' = {| x := 0; y := 0 |}
  /\ position (flushFrame s') = {| x := 0; y := 0 |}
  /\ hasWheelZoomed s' = false
  /\ lastZoomPosition s' = {| x := 0; y := 0 |}.
Proof. cbv zeta. repeat split. Qed.

(** ** C10: flips *)

Lemma onFlipX_involutive (s : State) : onFlipX (onFlipX s) = s.
Proof.
  destruct s as [sc ro [fx fy] po qu mo ori mv cu lw ww lz hz].
  unfold onFlipX, set_flip. cbn. rewrite Z.opp_involutive. reflexivity.
Qed.

Lemma onFlipY_involutive (s : State) : onFlipY (onFlipY s) = s.
Proof.
  destruct s as [sc ro [fx fy] po qu mo ori mv cu lw ww lz hz].
  unfold onFlipY, set_flip. cbn. rewrite Z.opp_involutive. reflexivity.
Qed.

(** ** The transition system: what each event does to rotation, flip and
       the current key *)

(** Unfolds the handlers and splits on every test they make. *)
Ltac split_test b :=
  lazymatch b with
  | context [match _ with _ => _ end] => fail
  | context [let '(_, _) := _ in _] => fail
  | _ => destruct b
  end.

Ltac split_tests :=
  repeat match goal with
         | |- context [let '(_, _) := ?p in _] => split_test p
         | |- context [match ?b with _ => _ end] => split_test b
         end.

Ltac unfold_handlers :=
  unfold step, onAfterClose, onZoomIn, onZoomOut, onRotateRight, onRotateLeft,
    onFlipX, onFlipY, onSwitchLeft, onSwitchRight, onMouseUp, onMouseDown,
    onMouseMove, updateMousePosition, onWheelMove, runWheelWatcher,
    wheelWatcher, onZoomIn, onZoomOut, onKeyDown, onDoubleClick, flushFrame,
    dispatchZoomChange, setPosition, setCurrent.

Section Transitions.

Variable cfg : Config.
Variable getFix : Env -> Q -> Q -> Q -> Q -> option Point.

Lemma step_rotate (e : Env) (ev : Event) (s : State) :
  rotate (step cfg getFix e ev s)
  = match ev with
    | AfterClose => 0%Z
    | RotateRight => (rotate s + 90)%Z
    | RotateLeft => (rotate s - 90)%Z
    | _ => rotate s
    end.
Proof. destruct ev; unfold_handlers; split_tests; reflexivity. Qed.

Lemma step_flip (e : Env) (ev : Event) (s : State) :
  flip (step cfg getFix e ev s)
  = match ev with
    | AfterClose => {| flip_x := 1; flip_y := 1 |}
    | FlipX => {| flip_x := - flip_x (flip s); flip_y := flip_y (flip s) |}
    | FlipY => {| flip_x := flip_x (flip s); flip_y := - flip_y (flip s) |}
    | _ => flip s
    end.
Proof. destruct ev; unfold_handlers; split_tests; reflexivity. Qed.

Lemma step_current (e : Env) (ev : Event) (s : State) :
  current (step cfg getFix e ev s)
  = match ev with
    | SwitchLeft => current (onSwitchLeft cfg s)
    | SwitchRight => current (onSwitchRight cfg s)
    | KeyDown k => current (onKeyDown cfg e k s)
    | _ => current s
    end.
Proof. destruct ev; unfold_handlers; split_tests; reflexivity. Qed.

(** A property kept by every event holds along every run. *)
Lemma run_invariant (P : State -> Prop) :
  (forall e ev s, P s -> P (step cfg getFix e ev s)) ->
  forall tr s, P s -> P (run cfg getFix tr s).
Proof.
  intros Hstep tr. induction tr as [|[e ev] tr IH]; intros s Hs.
  - exact Hs.
  - cbn [run]. apply IH, Hstep, Hs.
Qed.

Lemma reachable_invariant (P : State -> Prop) :
  (forall cur, P (initialState cur)) ->
  (forall e ev s, P s -> P (step cfg getFix e ev s)) ->
  forall s, reachable cfg getFix s -> P s.
Proof.
  intros Hinit Hstep s (cur & tr & ->).
  apply run_invariant; [exact Hstep | apply Hinit].
Qed.

End Transitions.

(** ** C9: the rotation is a multiple of 90 *)

(** C9: the rotation starts at 0; every event leaves it as it was, adds or
    subtracts exactly 90, or resets it to 0; so in every reachable state it
    is a multiple of 90. *)
Theorem rotate_multiple_of_90
    (cfg : Config) (getFix : Env -> Q -> Q -> Q -> Q -> option Point) :
  (forall cur, rotate (initialState cur) = 0%Z)
  /\ (forall e ev s,
        let r := rotate (step cfg getFix e ev s) in
        r = rotate s \/ r = (rotate s + 90)%Z \/ r = (rotate s - 90)%Z
        \/ r = 0%Z)
  /\ (forall s, reachable cfg getFix s ->
        Z.rem (rotate s) 90 = 0%Z /\ (rotate s mod 90 = 0)%Z).
Proof.
  split; [reflexivity|]. split.
  - intros e ev s. cbv zeta. rewrite step_rotate. destruct ev; auto.
  - intros s Hs.
    assert (Hdiv : (90 | rotate s)%Z).
    { revert s Hs. apply reachable_invariant.
      - intros cur. exists 0%Z. reflexivity.
      - intros e ev s [k Hk]. rewrite step_rotate.
        destruct ev; try (exists k; exact Hk).
        + exists 0%Z. reflexivity.
        + exists (k + 1)%Z. lia.
        + exists (k - 1)%Z. lia. }
    split.
    + apply Z.rem_divide; [lia | exact Hdiv].
    + apply Z.mod_divide; [lia | exact Hdiv].
Qed.

Lemma rotate_multiple_of_90_witness :
  rotate (run defaultConfig noFix threeTurns (initialState None)) = (-270)%Z
  /\ Z.rem (rotate (run defaultConfig noFix threeTurns (initialState None))) 90
     = 0%Z.
Proof.
  split; [reflexivity|].
  destruct (rotate_multiple_of_90 defaultConfig noFix) as (_ & _ & H).
  apply H. exists None, threeTurns. reflexivity.
Defined.

(** ** C10: flips are involutions *)

(** C10: flipping twice along one axis restores the whole state; one flip
    negates the sign of its axis and changes no other field; in every
    reachable state both signs are 1 or -1. *)
Theorem flip_involution
    (cfg : Config) (getFix : Env -> Q -> Q -> Q -> Q -> option Point)
    (s : State) :
  onFlipX (onFlipX s) = s
  /\ onFlipY (onFlipY s) = s
  /\ (flip (onFlipX s)
      = {| flip_x := - flip_x (flip s); flip_y := flip_y (flip s) |}
      /\ set_flip (flip s) (onFlipX s) = s
      /\ scale (onFlipX s) = scale s /\ rotate (onFlipX s) = rotate s
      /\ position (onFlipX s) = position s /\ queue (onFlipX s) = queue s)
  /\ (flip (onFlipY s)
      = {| flip_x := flip_x (flip s); flip_y := - flip_y (flip s) |}
      /\ set_flip (flip s) (onFlipY s) = s
      /\ scale (onFlipY s) = scale s /\ rotate (onFlipY s) = rotate s
      /\ position (onFlipY s) = position s /\ queue (onFlipY s) = queue s)
  /\ (reachable cfg getFix s ->
      (flip_x (flip s) = 1 \/ flip_x (flip s) = -1)%Z
      /\ (flip_y (flip s) = 1 \/ flip_y (flip s) = -1)%Z).
Proof.
  split; [apply onFlipX_involutive|]. split; [apply onFlipY_involutive|].
  split; [|split].
  - destruct s as [sc ro [fx fy] po qu mo ori mv cu lw ww lz hz].
    repeat split.
  - destruct s as [sc ro [fx fy] po qu mo ori mv cu lw ww lz hz].
    repeat split.
  - revert s. apply reachable_invariant.
    + intros cur. split; left; reflexivity.
    + intros e ev s [Hx Hy]. rewrite step_flip.
      destruct ev; cbn [flip_x flip_y]; split; auto; lia.
Qed.

Lemma flip_involution_witness :
  let s := run defaultConfig noFix threeTurns (initialState None) in
  onFlipX (onFlipX s) = s /\ flip_x (flip s) = (-1)%Z
  /\ (flip_y (flip s) = 1 \/ flip_y (flip s) = -1)%Z.
Proof.
  cbv zeta.
  destruct (flip_involution defaultConfig noFix
              (run defaultConfig noFix threeTurns (initialState None)))
    as (Hx & _ & _ & _ & Hr).
  split; [exact Hx|]. split; [reflexivity|].
  apply Hr. exists None, threeTurns. reflexivity.
Defined.

(** ** C7: group navigation *)

Section Navigation.

Variable cfg : Config.
Variable getFix : Env -> Q -> Q -> Q -> Q -> option Point.

Lemma previewGroupCount_keys :
  previewGroupCount cfg = Z.of_nat (List.length (previewUrlsKeys cfg)).
Proof. unfold previewGroupCount, previewUrlsKeys. now rewrite length_map. Qed.

Lemma indexOf_from_nth (l : list Key) :
  NoDup l ->
  forall (n : nat) (i : Z) (k : Key),
    nth_error l n = Some k -> indexOf_from i l k = (i + Z.of_nat n)%Z.
Proof.
  induction 1 as [|h t Hnotin Hnd IH]; intros n i k Hn.
  - destruct n; discriminate.
  - destruct n as [|n]; cbn [indexOf_from nth_error] in *.
    + injection Hn as ->. rewrite Z.eqb_refl. lia.
    + destruct (Z.eqb_spec h k) as [->|Hne].
      * exfalso. apply Hnotin. eapply nth_error_In. exact Hn.
      * rewrite (IH n (i + 1)%Z k Hn). lia.
Qed.

(** Reading the key at an index of the array and looking it up again. *)
Lemma indexOf_at_index (i : Z) :
  NoDup (previewUrlsKeys cfg) ->
  (0 <= i < previewGroupCount cfg)%Z ->
  indexOf (previewUrlsKeys cfg) (at_index (previewUrlsKeys cfg) i) = i.
Proof.
  intros Hnd Hi. rewrite previewGroupCount_keys in Hi.
  unfold at_index. destruct (Z.ltb_spec i 0); [lia|].
  destruct (nth_error (previewUrlsKeys cfg) (Z.to_nat i)) as [k|] eqn:Hn.
  - cbn [indexOf]. rewrite (indexOf_from_nth Hnd _ 0%Z Hn). lia.
  - apply nth_error_None in Hn. lia.
Qed.

Lemma onSwitchLeft_index (s : State) :
  NoDup (previewUrlsKeys cfg) -> InRange cfg s ->
  currentPreviewIndex cfg (onSwitchLeft cfg s)
  = if (0 <? currentPreviewIndex cfg s)%Z
    then (currentPreviewIndex cfg s - 1)%Z
    else currentPreviewIndex cfg s.
Proof.
  intros Hnd Hs. unfold onSwitchLeft, InRange in *.
  destruct (Z.ltb_spec 0 (currentPreviewIndex cfg s)); [|reflexivity].
  unfold setCurrent, currentPreviewIndex at 1. cbn [current set_current].
  apply indexOf_at_index; [exact Hnd | lia].
Qed.

Lemma onSwitchRight_index (s : State) :
  NoDup (previewUrlsKeys cfg) -> InRange cfg s ->
  currentPreviewIndex cfg (onSwitchRight cfg s)
  = if (currentPreviewIndex cfg s <? previewGroupCount cfg - 1)%Z
    then (currentPreviewIndex cfg s + 1)%Z
    else currentPreviewIndex cfg s.
Proof.
  intros Hnd Hs. unfold onSwitchRight, InRange in *.
  destruct (Z.ltb_spec (currentPreviewIndex cfg s) (previewGroupCount cfg - 1));
    [|reflexivity].
  unfold setCurrent, currentPreviewIndex at 1. cbn [current set_current].
  apply indexOf_at_index; [exact Hnd | lia].
Qed.

(** The keyboard handler is the click handler of the matching arrow,
    behind its gate. *)
Lemma onKeyDown_cases (e : Env) (keyCode : Z) (s : State) :
  onKeyDown cfg e keyCode s
  = if visible e && (isPreviewGroup cfg && (1 <? previewGroupCount cfg)%Z)
    then if Z.eqb keyCode KeyCode.LEFT then onSwitchLeft cfg s
         else if Z.eqb keyCode KeyCode.RIGHT then onSwitchRight cfg s
         else s
    else s.
Proof.
  unfold onKeyDown, showLeftOrRightSwitches, onSwitchLeft, onSwitchRight.
  destruct (visible e), (isPreviewGroup cfg), (1 <? previewGroupCount cfg)%Z;
    reflexivity.
Qed.

Lemma step_InRange (e : Env) (ev : Event) (s : State) :
  NoDup (previewUrlsKeys cfg) -> InRange cfg s -> InRange cfg (step cfg getFix e ev s).
Proof.
  intros Hnd Hs.
  assert (HL : InRange cfg (onSwitchLeft cfg s)).
  { unfold InRange. rewrite (onSwitchLeft_index Hnd Hs). unfold InRange in Hs.
    destruct (Z.ltb_spec 0 (currentPreviewIndex cfg s)); lia. }
  assert (HR : InRange cfg (onSwitchRight cfg s)).
  { unfold InRange. rewrite (onSwitchRight_index Hnd Hs). unfold InRange in Hs.
    destruct (Z.ltb_spec (currentPreviewIndex cfg s) (previewGroupCount cfg - 1));
      lia. }
  unfold InRange, currentPreviewIndex. rewrite step_current.
  destruct ev; try exact Hs; try exact HL; try exact HR.
  rewrite onKeyDown_cases.
  destruct (visible e && (isPreviewGroup cfg && (1 <? previewGroupCount cfg)%Z));
    [|exact Hs].
  destruct (Z.eqb keyCode KeyCode.LEFT); [exact HL|].
  destruct (Z.eqb keyCode KeyCode.RIGHT); [exact HR | exact Hs].
Qed.

End Navigation.

(** C7: when the keys of the group are pairwise distinct and [currentIndex]
    starts within [[0, count - 1]], it stays there along every sequence of
    events; a left click moves to the previous item exactly when
    [currentIndex > 0], a right click to the next one exactly when
    [currentIndex < count - 1]; a key press does what the click of the same
    arrow does, and only on a visible preview of a group of more than one
    item; any other key, and any key outside these conditions, changes
    nothing. *)
Theorem navigation_in_range
    (cfg : Config) (getFix : Env -> Q -> Q -> Q -> Q -> option Point) :
  NoDup (previewUrlsKeys cfg) ->
  (forall tr s, InRange cfg s -> InRange cfg (run cfg getFix tr s))
  /\ (forall s, InRange cfg s ->
        currentPreviewIndex cfg (onSwitchLeft cfg s)
        = if (0 <? currentPreviewIndex cfg s)%Z
          then (currentPreviewIndex cfg s - 1)%Z
          else currentPreviewIndex cfg s)
  /\ (forall s, InRange cfg s ->
        currentPreviewIndex cfg (onSwitchRight cfg s)
        = if (currentPreviewIndex cfg s <? previewGroupCount cfg - 1)%Z
          then (currentPreviewIndex cfg s + 1)%Z
          else currentPreviewIndex cfg s)
  /\ (forall s, (currentPreviewIndex cfg s <= 0)%Z -> onSwitchLeft cfg s = s)
  /\ (forall s, (previewGroupCount cfg - 1 <= currentPreviewIndex cfg s)%Z ->
        onSwitchRight cfg s = s)
  /\ (forall e s,
        visible e = true -> isPreviewGroup cfg = true ->
        (1 < previewGroupCount cfg)%Z ->
        onKeyDown cfg e KeyCode.LEFT s = onSwitchLeft cfg s
        /\ onKeyDown cfg e KeyCode.RIGHT s = onSwitchRight cfg s)
  /\ (forall e k s,
        visible e = false \/ (previewGroupCount cfg <= 1)%Z ->
        onKeyDown cfg e k s = s)
  /\ (forall e k s,
        k <> KeyCode.LEFT -> k <> KeyCode.RIGHT -> onKeyDown cfg e k s = s).
Proof.
  intros Hnd.
  split.
  { intros tr s. apply run_invariant. intros e ev s0. apply step_InRange, Hnd. }
  split; [intros s Hs; apply onSwitchLeft_index; assumption|].
  split; [intros s Hs; apply onSwitchRight_index; assumption|].
  split.
  { intros s Hs. unfold onSwitchLeft.
    destruct (Z.ltb_spec 0 (currentPreviewIndex cfg s)); [lia | reflexivity]. }
  split.
  { intros s Hs. unfold onSwitchRight.
    destruct (Z.ltb_spec (currentPreviewIndex cfg s) (previewGroupCount cfg - 1));
      [lia | reflexivity]. }
  split.
  { intros e s Hv Hg Hc. rewrite !onKeyDown_cases, Hv, Hg.
    destruct (Z.ltb_spec 1 (previewGroupCount cfg)); [|lia].
    split; reflexivity. }
  split.
  { intros e k s H. rewrite onKeyDown_cases.
    destruct H as [-> | H]; [reflexivity|].
    destruct (Z.ltb_spec 1 (previewGroupCount cfg)); [lia|].
    rewrite !andb_false_r. reflexivity. }
  intros e k s HL HR. rewrite onKeyDown_cases.
  destruct (Z.eqb_spec k KeyCode.LEFT); [contradiction|].
  destruct (Z.eqb_spec k KeyCode.RIGHT); [contradiction|].
  destruct (visible e && _); reflexivity.
Qed.

Lemma navigation_in_range_witness :
  current (run groupOfThree noFix leftLeft (initialState (Some 2%Z))) = Some 1%Z
  /\ InRange groupOfThree
       (run groupOfThree noFix leftLeft (initialState (Some 2%Z))).
Proof.
  split; [reflexivity|].
  assert (Hnd : NoDup (previewUrlsKeys groupOfThree)).
  { unfold previewUrlsKeys. cbn.
    repeat constructor; cbn; intuition discriminate. }
  destruct (navigation_in_range groupOfThree noFix Hnd) as (H & _).
  apply H. unfold InRange. cbn. lia.
Defined.

(** ** Further properties of the zoom handlers *)

Section ZoomScale.

Variable cfg : Config.

Lemma boundedScale_unclamped (old ratio : Q) :
  minScale cfg <= old * ratio <= maxScale cfg ->
  boundedScale cfg old ratio = (old * ratio, ratio).
Proof.
  intros [Hlo Hhi]. unfold boundedScale, Qgt_bool.
  apply Qlt_bool_false in Hhi. apply Qlt_bool_false in Hlo.
  rewrite Hhi, Hlo. reflexivity.
Qed.

(** What [onZoomIn] and [onZoomOut] do to the scale on a mounted image. *)
Lemma onZoomIn_scale (e : Env) (img : ImgElement) (isWheel : bool) (s : State) :
  imgRef e = Some img ->
  scale (onZoomIn cfg e isWheel s)
  = if Qge_bool (scale s) (maxScale cfg) then scale s
    else fst (boundedScale cfg (scale s) (if isWheel then 3#2 else 2)).
Proof.
  intros Himg. unfold onZoomIn.
  destruct (Qge_bool (scale s) (maxScale cfg)); [reflexivity|].
  destruct isWheel; [|destruct (hasWheelZoomed s)];
    cbn [scale set_hasWheelZoomed set_lastZoomPosition];
    apply (@dispatchZoomChange_scale cfg e img); exact Himg.
Qed.

Lemma onZoomOut_scale (e : Env) (img : ImgElement) (isWheel : bool) (s : State) :
  imgRef e = Some img ->
  scale (onZoomOut cfg e isWheel s)
  = if Qle_bool (scale s) (minScale cfg) then scale s
    else fst (boundedScale cfg (scale s) (if isWheel then 667#1000 else 1#2)).
Proof.
  intros Himg. unfold onZoomOut.
  destruct (Qle_bool (scale s) (minScale cfg)); [reflexivity|].
  destruct isWheel; [|destruct (hasWheelZoomed s)];
    cbn [scale set_hasWheelZoomed set_lastZoomPosition];
    apply (@dispatchZoomChange_scale cfg e img); exact Himg.
Qed.

Lemma onZoomIn_scale_unmounted (e : Env) (isWheel : bool) (s : State) :
  imgRef e = None -> scale (onZoomIn cfg e isWheel s) = scale s.
Proof.
  intros Himg. unfold onZoomIn.
  destruct (Qge_bool (scale s) (maxScale cfg)); [reflexivity|].
  destruct isWheel; [|destruct (hasWheelZoomed s)];
    rewrite !dispatchZoomChange_unmounted by exact Himg; reflexivity.
Qed.

Lemma onZoomOut_scale_unmounted (e : Env) (isWheel : bool) (s : State) :
  imgRef e = None -> scale (onZoomOut cfg e isWheel s) = scale s.
Proof.
  intros Himg. unfold onZoomOut.
  destruct (Qle_bool (scale s) (minScale cfg)); [reflexivity|].
  destruct isWheel; [|destruct (hasWheelZoomed s)];
    rewrite !dispatchZoomChange_unmounted by exact Himg; reflexivity.
Qed.

Lemma onZoomIn_InBounds (e : Env) (isWheel : bool) (s : State) :
  minScale cfg <= maxScale cfg -> InBounds cfg s -> InBounds cfg (onZoomIn cfg e isWheel s).
Proof.
  intros Hmm Hs. unfold InBounds.
  destruct (imgRef e) as [img|] eqn:Himg.
  - rewrite (@onZoomIn_scale e img isWheel s Himg).
    destruct (Qge_bool (scale s) (maxScale cfg)); [exact Hs|].
    apply boundedScale_range, Hmm.
  - rewrite onZoomIn_scale_unmounted by exact Himg. exact Hs.
Qed.

Lemma onZoomOut_InBounds (e : Env) (isWheel : bool) (s : State) :
  minScale cfg <= maxScale cfg -> InBounds cfg s -> InBounds cfg (onZoomOut cfg e isWheel s).
Proof.
  intros Hmm Hs. unfold InBounds.
  destruct (imgRef e) as [img|] eqn:Himg.
  - rewrite (@onZoomOut_scale e img isWheel s Himg).
    destruct (Qle_bool (scale s) (minScale cfg)); [exact Hs|].
    apply boundedScale_range, Hmm.
  - rewrite onZoomOut_scale_unmounted by exact Himg. exact Hs.
Qed.

End ZoomScale.

(** ** The scale stays within its bounds *)

(** X1: when [minScale <= 1 <= maxScale], the scale lies in
    [[minScale, maxScale]] in every reachable state. *)
Theorem scale_in_bounds
    (cfg : Config) (getFix : Env -> Q -> Q -> Q -> Q -> option Point) (s : State) :
  minScale cfg <= 1 -> 1 <= maxScale cfg ->
  reachable cfg getFix s -> InBounds cfg s.
Proof.
  intros Hlo Hhi. revert s. apply reachable_invariant.
  - intros cur. unfold InBounds. cbn. split; assumption.
  - assert (Hmm : minScale cfg <= maxScale cfg) by lra.
    intros e ev s Hs. destruct ev;
      try (apply onZoomIn_InBounds; assumption);
      try (apply onZoomOut_InBounds; assumption);
      try exact Hs.
    + unfold InBounds. cbn. split; assumption.
    + unfold step, onSwitchLeft, setCurrent. split_tests; exact Hs.
    + unfold step, onSwitchRight, setCurrent. split_tests; exact Hs.
    + unfold step, onMouseUp, setPosition. split_tests; exact Hs.
    + unfold step, onMouseDown. split_tests; exact Hs.
    + unfold step, onMouseMove, updateMousePosition, setPosition.
      split_tests; exact Hs.
    + unfold step, onWheelMove. split_tests; exact Hs.
    + unfold step, runWheelWatcher, wheelWatcher.
      destruct (wheelWatch s); [|exact Hs].
      assert (Hs' : InBounds cfg (set_wheelWatch false s)) by exact Hs.
      cbn [lastWheelZoomDirection set_wheelWatch].
      destruct (Qgt_bool (lastWheelZoomDirection s) 0);
        [apply onZoomOut_InBounds; assumption|].
      destruct (Qlt_bool (lastWheelZoomDirection s) 0);
        [apply onZoomIn_InBounds; assumption | exact Hs'].
    + unfold step, onKeyDown, setCurrent. split_tests; exact Hs.
    + unfold step, onDoubleClick, setPosition, InBounds in *.
      destruct (visible e); [|exact Hs].
      destruct (Qneq_bool (scale s) 1);
        match goal with
        | |- context [if ?b then _ else _] => destruct b
        end; cbn; try (split; assumption); exact Hs.
    + unfold step, flushFrame. split_tests; exact Hs.
Qed.

Lemma scale_in_bounds_witness :
  InBounds defaultConfig
    (run defaultConfig noFix wheelThenDoubleClick (initialState None)).
Proof.
  apply (@scale_in_bounds defaultConfig noFix).
  - vm_compute. discriminate.
  - vm_compute. discriminate.
  - exists None, wheelThenDoubleClick. reflexivity.
Defined.

(** X2: on a scale that is not negative, [onZoomIn] never lowers the scale
    and [onZoomOut] never raises it, whatever the bounds and whether or not
    the image is mounted. *)
Theorem zoom_direction (cfg : Config) (e : Env) (isWheel : bool) (s : State) :
  0 <= scale s ->
  scale s <= scale (onZoomIn cfg e isWheel s)
  /\ scale (onZoomOut cfg e isWheel s) <= scale s.
Proof.
  intros Hpos. split.
  - destruct (imgRef e) as [img|] eqn:Himg.
    + rewrite (@onZoomIn_scale cfg e img isWheel s Himg).
      destruct (Qge_bool (scale s) (maxScale cfg)) eqn:Emax; [lra|].
      apply Qle_bool_false in Emax.
      unfold boundedScale, Qgt_bool.
      destruct (Qlt_bool (maxScale cfg) _) eqn:E1; cbn [fst]; [lra|].
      destruct (Qlt_bool _ (minScale cfg)) eqn:E2; cbn [fst].
      * apply Qlt_bool_iff in E2. destruct isWheel; lra.
      * destruct isWheel; lra.
    + rewrite onZoomIn_scale_unmounted by exact Himg. lra.
  - destruct (imgRef e) as [img|] eqn:Himg.
    + rewrite (@onZoomOut_scale cfg e img isWheel s Himg).
      destruct (Qle_bool (scale s) (minScale cfg)) eqn:Emin; [lra|].
      apply Qle_bool_false in Emin.
      unfold boundedScale, Qgt_bool.
      destruct (Qlt_bool (maxScale cfg) _) eqn:E1; cbn [fst].
      * apply Qlt_bool_iff in E1. destruct isWheel; lra.
      * destruct (Qlt_bool _ (minScale cfg)) eqn:E2; cbn [fst];
          destruct isWheel; lra.
    + rewrite onZoomOut_scale_unmounted by exact Himg. lra.
Qed.

Lemma zoom_direction_witness :
  scale draggedState <= scale (onZoomIn defaultConfig mountedEnv true draggedState)
  /\ scale (onZoomOut defaultConfig mountedEnv true draggedState)
     <= scale draggedState.
Proof.
  apply zoom_direction. vm_compute. discriminate.
Defined.

(** ** Zooming back *)

(** X3: on a mounted image, a zoom by [r] and, once the tick has passed, a
    zoom by [1 / r] around the same focal point restore the scale and the
    position, provided that neither zoom is clamped and neither shrinks to
    fit. *)
Theorem dispatchZoomChange_round_trip
    (cfg : Config) (e : Env) (img : ImgElement) (r : Q) (w1 w2 : bool)
    (cx cy : option Q) (s : State) :
  imgRef e = Some img ->
  0 < r ->
  minScale cfg <= scale s <= maxScale cfg ->
  minScale cfg <= scale s * r <= maxScale cfg ->
  ~ ShrinksToFit e img r (scale s * r) ->
  ~ ShrinksToFit e img (/ r) (scale s) ->
  let s1 := flushFrame (dispatchZoomChange cfg e r w1 cx cy s) in
  let s2 := dispatchZoomChange cfg e (/ r) w2 cx cy s1 in
  scale s2 == scale s
  /\ x (nextPosition s2) == x (position s)
  /\ y (nextPosition s2) == y (position s).
Proof.
  intros Himg Hr Hs Hsr Hfit1 Hfit2 s1 s2.
  assert (Hscale1 : scale s1 = scale s * r).
  { subst s1. unfold flushFrame, dispatchZoomChange. rewrite Himg.
    rewrite (@boundedScale_unclamped cfg _ _ Hsr). reflexivity. }
  assert (Hpos1 : position s1
                  = nextPosition (dispatchZoomChange cfg e r w1 cx cy s))
    by reflexivity.
  rewrite (@dispatchZoomChange_position cfg e img r w1 cx cy s Himg) in Hpos1.
  rewrite (@boundedScale_unclamped cfg _ _ Hsr) in Hpos1. cbn [fst snd] in Hpos1.
  apply shrinkToFit_false_iff in Hfit1. rewrite Hfit1 in Hpos1.
  assert (Hback : scale s * r * / r == scale s) by (field; lra).
  assert (Hsr2 : minScale cfg <= scale s1 * / r <= maxScale cfg)
    by (rewrite Hscale1, Hback; exact Hs).
  assert (Hfit2' : shrinkToFit e img (/ r) (scale s1 * / r) = false).
  { apply shrinkToFit_false_iff. intros (H1 & H2 & H3 & H4). apply Hfit2.
    rewrite Hscale1, Hback in H2. repeat split; assumption. }
  subst s2.
  rewrite (@dispatchZoomChange_position cfg e img (/ r) w2 cx cy s1 Himg).
  rewrite (@dispatchZoomChange_scale cfg e img (/ r) w2 cx cy s1 Himg).
  rewrite (@boundedScale_unclamped cfg _ _ Hsr2). cbn [fst snd].
  rewrite Hfit2', Hpos1. cbn [x y].
  split; [rewrite Hscale1; exact Hback|].
  split; field; lra.
Qed.

Lemma dispatchZoomChange_round_trip_witness :
  let s1 := flushFrame (dispatchZoomChange defaultConfig mountedEnv 4 true
                          (Some 30) None draggedState) in
  let s2 := dispatchZoomChange defaultConfig mountedEnv (/ 4) false
              (Some 30) None s1 in
  scale s2 == 3#2 /\ x (nextPosition s2) == 10 /\ y (nextPosition s2) == 10.
Proof.
  cbv zeta.
  apply (@dispatchZoomChange_round_trip defaultConfig mountedEnv smallImg 4
           true false (Some 30) None draggedState).
  - reflexivity.
  - reflexivity.
  - split; vm_compute; discriminate.
  - split; vm_compute; discriminate.
  - intros (H & _). vm_compute in H. discriminate.
  - intros (_ & H & _). vm_compute in H. discriminate.
Defined.

Lemma pow2_ge_1 (n : nat) : 1 <= pow2 n.
Proof. induction n as [|n IH]; cbn [pow2]; lra. Qed.

(** X4: on a mounted image, [n] button zoom-ins from a scale within the
    bounds and not negative multiply the scale by [2 ^ n], saturating at
    [maxScale]. *)
Theorem onZoomIn_saturates
    (cfg : Config) (e : Env) (img : ImgElement) (s : State) (n : nat) :
  imgRef e = Some img ->
  0 <= scale s ->
  minScale cfg <= scale s <= maxScale cfg ->
  scale (Nat.iter n (onZoomIn cfg e false) s)
  == Qmin (pow2 n * scale s) (maxScale cfg).
Proof.
  intros Himg Hpos Hs. induction n as [|n IH].
  - cbn [Nat.iter pow2 nat_rect].
    destruct (Q.min_spec (1 * scale s) (maxScale cfg)) as [[H E]|[H E]];
      rewrite E; lra.
  - change (Nat.iter (S n) (onZoomIn cfg e false) s)
      with (onZoomIn cfg e false (Nat.iter n (onZoomIn cfg e false) s)).
    set (t := Nat.iter n (onZoomIn cfg e false) s) in *.
    rewrite (@onZoomIn_scale cfg e img false t Himg).
    pose proof (pow2_ge_1 n) as Hp.
    assert (Hps : scale s <= pow2 n * scale s) by nra.
    cbn [pow2].
    destruct (Q.min_spec (pow2 n * scale s) (maxScale cfg)) as [[H E]|[H E]];
      rewrite E in IH;
      destruct (Q.min_spec (2 * pow2 n * scale s) (maxScale cfg)) as [[H' E']|[H' E']];
      rewrite E';
      unfold Qge_bool;
      destruct (Qle_bool (maxScale cfg) (scale t)) eqn:Emax;
      try (apply Qle_bool_iff in Emax); try (apply Qle_bool_false in Emax);
      try lra;
      unfold boundedScale, Qgt_bool;
      destruct (Qlt_bool (maxScale cfg) (scale t * 2)) eqn:E1;
      try (apply Qlt_bool_iff in E1); try (apply Qlt_bool_false in E1);
      cbn [fst]; try lra;
      destruct (Qlt_bool (scale t * 2) (minScale cfg)) eqn:E2;
      try (apply Qlt_bool_iff in E2); try (apply Qlt_bool_false in E2);
      cbn [fst]; lra.
Qed.

Lemma onZoomIn_saturates_witness :
  scale (Nat.iter 3 (onZoomIn defaultConfig mountedEnv false) draggedState) == 12
  /\ scale (Nat.iter 9 (onZoomIn defaultConfig mountedEnv false) draggedState)
     == 50.
Proof.
  assert (H : forall n,
             scale (Nat.iter n (onZoomIn defaultConfig mountedEnv false) draggedState)
             == Qmin (pow2 n * scale draggedState) (maxScale defaultConfig)).
  { intros n.
    apply (@onZoomIn_saturates defaultConfig mountedEnv smallImg draggedState n).
    - reflexivity.
    - vm_compute. discriminate.
    - split; vm_compute; discriminate. }
  split; rewrite H; vm_compute; reflexivity.
Defined.

(** X5: on a mounted image, a button zoom-in followed by a button zoom-out
    restores the scale, as long as the doubled scale does not exceed
    [maxScale]. *)
Theorem button_zoom_in_out
    (cfg : Config) (e1 e2 : Env) (img1 img2 : ImgElement) (s : State) :
  imgRef e1 = Some img1 -> imgRef e2 = Some img2 ->
  0 < scale s ->
  minScale cfg <= scale s ->
  scale s * 2 <= maxScale cfg ->
  scale (onZoomOut cfg e2 false (onZoomIn cfg e1 false s)) == scale s.
Proof.
  intros H1 H2 Hpos Hlo Hhi.
  rewrite (@onZoomOut_scale cfg e2 img2 false _ H2).
  rewrite (@onZoomIn_scale cfg e1 img1 false s H1).
  unfold Qge_bool.
  destruct (Qle_bool (maxScale cfg) (scale s)) eqn:Emax;
    [apply Qle_bool_iff in Emax; lra|].
  rewrite (@boundedScale_unclamped cfg (scale s) 2) by lra. cbn [fst].
  destruct (Qle_bool (scale s * 2) (minScale cfg)) eqn:Emin;
    [apply Qle_bool_iff in Emin; lra|].
  rewrite (@boundedScale_unclamped cfg (scale s * 2) (1#2)) by lra. cbn [fst].
  field.
Qed.

Lemma button_zoom_in_out_witness :
  scale (onZoomOut defaultConfig mountedEnv false
           (onZoomIn defaultConfig mountedEnv false draggedState))
  == scale draggedState.
Proof.
  apply (@button_zoom_in_out defaultConfig mountedEnv mountedEnv smallImg smallImg).
  - reflexivity.
  - reflexivity.
  - reflexivity.
  - vm_compute. discriminate.
  - vm_compute. discriminate.
Defined.

(** X6: on a mounted image, a wheel zoom-in followed by a wheel zoom-out does
    not restore the scale: the factors [1.5] and [0.667] leave it multiplied
    by [1.0005], as long as the enlarged scale does not exceed [maxScale]. *)
Theorem wheel_zoom_in_out_drifts
    (cfg : Config) (e1 e2 : Env) (img1 img2 : ImgElement) (s : State) :
  imgRef e1 = Some img1 -> imgRef e2 = Some img2 ->
  0 < scale s ->
  minScale cfg <= scale s ->
  scale s * (3#2) <= maxScale cfg ->
  scale (onZoomOut cfg e2 true (onZoomIn cfg e1 true s))
  == (2001#2000) * scale s
  /\ scale s < scale (onZoomOut cfg e2 true (onZoomIn cfg e1 true s)).
Proof.
  intros H1 H2 Hpos Hlo Hhi.
  rewrite (@onZoomOut_scale cfg e2 img2 true _ H2).
  rewrite (@onZoomIn_scale cfg e1 img1 true s H1).
  unfold Qge_bool.
  destruct (Qle_bool (maxScale cfg) (scale s)) eqn:Emax;
    [apply Qle_bool_iff in Emax; lra|].
  rewrite (@boundedScale_unclamped cfg (scale s) (3#2)) by lra. cbn [fst].
  destruct (Qle_bool (scale s * (3#2)) (minScale cfg)) eqn:Emin;
    [apply Qle_bool_iff in Emin; lra|].
  rewrite (@boundedScale_unclamped cfg (scale s * (3#2)) (667#1000)) by lra.
  cbn [fst]. split; [field | lra].
Qed.

Lemma wheel_zoom_in_out_drifts_witness :
  scale (onZoomOut defaultConfig mountedEnv true
           (onZoomIn defaultConfig mountedEnv true (initialState None)))
  == 2001#2000.
Proof.
  destruct (@wheel_zoom_in_out_drifts defaultConfig mountedEnv mountedEnv
              smallImg smallImg (initialState None)) as [H _].
  - reflexivity.
  - reflexivity.
  - reflexivity.
  - vm_compute. discriminate.
  - vm_compute. discriminate.
  - rewrite H. reflexivity.
Defined.

(** ** The wheel-zoom memory *)

(** X7: in every reachable state, when [hasWheelZoomed] is false the
    remembered focal point [lastZoomPosition] is the origin. *)
Theorem memory_cleared_together
    (cfg : Config) (getFix : Env -> Q -> Q -> Q -> Q -> option Point) (s : State) :
  reachable cfg getFix s -> MemoryCleared s.
Proof.
  revert s. apply reachable_invariant.
  - intros cur _. reflexivity.
  - intros e ev s Hs. unfold MemoryCleared in *.
    destruct ev; unfold_handlers;
      repeat match goal with
             | |- context [match ?b with _ => _ end] =>
               lazymatch b with
               | context [match _ with _ => _ end] => fail
               | _ => destruct b eqn:?
               end
             end;
      cbn; intros; try reflexivity; try congruence; auto.
Qed.

Lemma memory_cleared_together_witness :
  MemoryCleared (run defaultConfig noFix wheelThenDoubleClick (initialState None)).
Proof.
  apply (@memory_cleared_together defaultConfig noFix).
  exists None, wheelThenDoubleClick. reflexivity.
Defined.

Lemma dispatchZoomChange_mousePosition
    (cfg : Config) (e : Env) (ratio : Q) (isWheel : bool) (cx cy : option Q)
    (s : State) :
  mousePosition (dispatchZoomChange cfg e ratio isWheel cx cy s) = mousePosition s.
Proof. unfold dispatchZoomChange. split_tests; reflexivity. Qed.

(** X8: after a wheel zoom-in below [maxScale], the pointer position of that
    moment is remembered, and a later button zoom, in or out, is the zoom
    around that position and not around the middle of the window. *)
Theorem button_zoom_follows_wheel
    (cfg : Config) (e1 e2 : Env) (s : State) :
  scale s < maxScale cfg ->
  let s1 := onZoomIn cfg e1 true s in
  let mx := x (mousePosition s) in
  let my := y (mousePosition s) in
  hasWheelZoomed s1 = true
  /\ lastZoomPosition s1 = {| x := mx; y := my |}
  /\ (scale s1 < maxScale cfg ->
      onZoomIn cfg e2 false s1
      = dispatchZoomChange cfg e2 2 false (Some mx) (Some my) s1)
  /\ (minScale cfg < scale s1 ->
      onZoomOut cfg e2 false s1
      = dispatchZoomChange cfg e2 (1#2) false (Some mx) (Some my) s1).
Proof.
  intros Hlt s1 mx my.
  assert (Hs1 : s1 = set_hasWheelZoomed true
                       (set_lastZoomPosition {| x := mx; y := my |}
                          (dispatchZoomChange cfg e1 (3#2) true
                             (Some mx) (Some my) s))).
  { subst s1 mx my. unfold onZoomIn, Qge_bool.
    apply Qle_bool_false in Hlt. rewrite Hlt.
    rewrite dispatchZoomChange_mousePosition. reflexivity. }
  assert (Hw : hasWheelZoomed s1 = true) by (rewrite Hs1; reflexivity).
  assert (Hl : lastZoomPosition s1 = {| x := mx; y := my |})
    by (rewrite Hs1; reflexivity).
  split; [exact Hw|]. split; [exact Hl|]. split.
  - intros H. unfold onZoomIn, Qge_bool.
    apply Qle_bool_false in H. rewrite H, Hw, Hl. reflexivity.
  - intros H. unfold onZoomOut.
    apply Qle_bool_false in H. rewrite H, Hw, Hl. reflexivity.
Qed.

Lemma button_zoom_follows_wheel_witness :
  let s := set_mousePosition {| x := 10; y := 20 |} (initialState None) in
  let s1 := onZoomIn defaultConfig mountedEnv true s in
  onZoomIn defaultConfig mountedEnv false s1
  = dispatchZoomChange defaultConfig mountedEnv 2 false (Some 10) (Some 20) s1.
Proof.
  cbv zeta.
  destruct (@button_zoom_follows_wheel defaultConfig mountedEnv mountedEnv
              (set_mousePosition {| x := 10; y := 20 |} (initialState None)))
    as (_ & _ & H & _).
  - reflexivity.
  - apply H. reflexivity.
Defined.

(** ** Dragging *)

(** X9: on a visible preview, pressing the primary button at [(a, b)] and
    moving the pointer to [(a', b')] schedules the position that was
    committed at the press, moved by the displacement [(a' - a, b' - b)] of
    the pointer; the drag is on, the pointer is recorded, and scale, rotation
    and flip are as before. *)
Theorem drag_translates (e : Env) (a b a' b' : Q) (btn : Z) (s : State) :
  visible e = true ->
  let s1 := onMouseDown (primaryButton a b) s in
  let s2 := onMouseMove e {| button := btn; pageX := a'; pageY := b' |} s1 in
  x (nextPosition s2) == x (position s) + (a' - a)
  /\ y (nextPosition s2) == y (position s) + (b' - b)
  /\ isMoving s2 = true
  /\ mousePosition s2 = {| x := a'; y := b' |}
  /\ scale s2 = scale s /\ rotate s2 = rotate s /\ flip s2 = flip s.
Proof.
  intros Hv s1 s2. subst s1 s2.
  unfold onMouseMove, onMouseDown, updateMousePosition, primaryButton.
  cbn. rewrite Hv. cbn.
  split; [ring|]. split; [ring|]. repeat split.
Qed.

Lemma drag_translates_witness :
  let s1 := onMouseDown (primaryButton 100 100) draggedState in
  let s2 := onMouseMove mountedEnv {| button := 0; pageX := 130; pageY := 90 |} s1 in
  x (nextPosition s2) == 40 /\ y (nextPosition s2) == 0.
Proof.
  cbv zeta.
  destruct (@drag_translates mountedEnv 100 100 130 90 0 draggedState eq_refl)
    as (Hx & Hy & _).
  split; [rewrite Hx | rewrite Hy]; reflexivity.
Defined.

(** ** Releasing the pointer *)

(** X10: [onMouseUp] throws exactly when the preview is visible, a drag is on
    and the image is not mounted; when it returns on a visible preview the
    drag is over, and on a hidden preview it returns the state as it was,
    the drag still on. *)
Theorem onMouseUp_throws
    (getFix : Env -> Q -> Q -> Q -> Q -> option Point) (e : Env) (s : State) :
  (onMouseUp getFix e s = None
   <-> visible e = true /\ isMoving s = true /\ imgRef e = None)
  /\ (forall s', onMouseUp getFix e s = Some s' ->
        visible e = true -> isMoving s' = false)
  /\ (visible e = false -> onMouseUp getFix e s = Some s).
Proof.
  unfold onMouseUp. split; [|split].
  - destruct (visible e), (isMoving s), (imgRef e) as [img|]; cbn;
      try (destruct (getFix _ _ _ _ _));
      split; try discriminate; try tauto;
      intros (H1 & H2 & H3); discriminate.
  - intros s' H Hv. rewrite Hv in H.
    destruct (isMoving s) eqn:Em; cbn in H.
    + destruct (imgRef e) as [img|]; [|discriminate].
      destruct (getFix _ _ _ _ _); injection H as <-; reflexivity.
    + injection H as <-. exact Em.
  - intros ->. reflexivity.
Qed.

Lemma onMouseUp_throws_witness :
  onMouseUp noFix unmountedEnv (set_isMoving true draggedState) = None
  /\ isMoving (set_isMoving false (set_isMoving true draggedState)) = false.
Proof.
  destruct (onMouseUp_throws noFix unmountedEnv (set_isMoving true draggedState))
    as (H & _ & _).
  destruct (onMouseUp_throws noFix mountedEnv (set_isMoving true draggedState))
    as (_ & H' & _).
  split.
  - apply H. repeat split.
  - apply (H' (set_isMoving false (set_isMoving true draggedState)));
      reflexivity.
Defined.

Lemma rem_quarter_turns (k : Z) :
  negb (Z.eqb (Z.rem (90 * k) 180) 0) = Z.odd k.
Proof.
  destruct (Z.eqb_spec (Z.rem (90 * k) 180) 0) as [H|H]; cbn [negb].
  - apply Z.rem_divide in H; [|lia]. destruct H as [q Hq].
    symmetry. rewrite <- Z.negb_even. apply negb_false_iff.
    apply Z.even_spec. exists q. lia.
  - symmetry. rewrite <- Z.negb_even. apply negb_true_iff.
    destruct (Z.even k) eqn:Ev; [|reflexivity].
    exfalso. apply H. apply Z.rem_divide; [lia|].
    apply Z.even_spec in Ev. destruct Ev as [q Hq]. exists q. lia.
Qed.

(** X11: when a drag ends on a visible, mounted image that was turned by [k]
    quarter turns (in either direction), the boundary corrector receives the
    scaled width and height of the image, swapped exactly when [k] is odd;
    its answer, if any, is scheduled as the position. *)
Theorem onMouseUp_swaps_on_odd_turns
    (getFix : Env -> Q -> Q -> Q -> Q -> option Point)
    (e : Env) (img : ImgElement) (k : Z) (s : State) :
  visible e = true -> isMoving s = true -> imgRef e = Some img ->
  rotate s = (90 * k)%Z ->
  let w := offsetWidth img * scale s in
  let h := offsetHeight img * scale s in
  let answer :=
    getFix e (if Z.odd k then h else w) (if Z.odd k then w else h)
      (pageLeft img) (pageTop img) in
  onMouseUp getFix e s
  = Some match answer with
         | Some p => setPosition {| x := x p; y := y p |} (set_isMoving false s)
         | None => set_isMoving false s
         end.
Proof.
  intros Hv Hm Himg Hr. cbv zeta. unfold onMouseUp.
  rewrite Hv, Hm, Himg, Hr, rem_quarter_turns. cbn [andb].
  destruct (Z.odd k); cbn [scale set_isMoving];
    destruct (getFix _ _ _ _ _); reflexivity.
Qed.

Lemma onMouseUp_swaps_on_odd_turns_witness :
  let s := set_isMoving true (set_rotate (-270) (set_scale 2 (initialState None))) in
  let wideImg := mkImg 300 100 0 0 0 0 in
  let env := mkEnv true (Some wideImg) 1000 1000 in
  onMouseUp (fun _ w h _ _ => Some {| x := w; y := h |}) env s
  = Some (setPosition {| x := 100 * 2; y := 300 * 2 |} (set_isMoving false s)).
Proof.
  cbv zeta.
  apply (@onMouseUp_swaps_on_odd_turns
           (fun _ w h _ _ => Some {| x := w; y := h |})
           (mkEnv true (Some (mkImg 300 100 0 0 0 0)) 1000 1000)
           (mkImg 300 100 0 0 0 0) (-3)
           (set_isMoving true (set_rotate (-270) (set_scale 2 (initialState None)))));
    reflexivity.
Defined.

(** ** A hidden preview *)

Lemma set_mousePosition_same (s : State) :
  set_mousePosition (mousePosition s) s = s.
Proof. destruct s. reflexivity. Qed.

(** X12: while the preview is hidden, no sequence of pointer moves and
    releases, wheel events, key presses and double clicks changes anything
    but the recorded pointer position: scale, rotation, flip, position, drag
    state, current item and wheel-zoom memory stay as they were, and no zoom
    becomes due. *)
Theorem hidden_preview_ignores_input
    (cfg : Config) (getFix : Env -> Q -> Q -> Q -> Q -> option Point)
    (tr : list (Env * Event)) (s : State) :
  forallb hiddenInput tr = true ->
  set_mousePosition (mousePosition s) (run cfg getFix tr s) = s.
Proof.
  revert s. induction tr as [|[e ev] tr IH]; intros s Htr.
  - apply set_mousePosition_same.
  - cbn [forallb] in Htr. apply andb_true_iff in Htr. destruct Htr as [Hh Htr].
    unfold hiddenInput in Hh. cbn [fst snd] in Hh.
    apply andb_true_iff in Hh. destruct Hh as [Hv Hev].
    apply negb_true_iff in Hv. cbn [run].
    assert (Hstep : exists p, step cfg getFix e ev s = set_mousePosition p s).
    { destruct ev; try discriminate; cbn [step].
      - exists (mousePosition s). unfold onMouseUp. rewrite Hv.
        symmetry. apply set_mousePosition_same.
      - exists {| x := pageX ev; y := pageY ev |}.
        unfold onMouseMove, updateMousePosition. rewrite Hv. reflexivity.
      - exists (mousePosition s). unfold onWheelMove. rewrite Hv.
        symmetry. apply set_mousePosition_same.
      - exists (mousePosition s). unfold onKeyDown. rewrite Hv.
        symmetry. apply set_mousePosition_same.
      - exists (mousePosition s). unfold onDoubleClick. rewrite Hv.
        symmetry. apply set_mousePosition_same. }
    destruct Hstep as [p Hp]. rewrite Hp.
    specialize (IH (set_mousePosition p s) Htr).
    destruct (run cfg getFix tr (set_mousePosition p s)), s.
    cbn in *. inversion IH. reflexivity.
Qed.

Lemma hidden_preview_ignores_input_witness :
  let hidden := mkEnv false (Some smallImg) 1000 1000 in
  let s := set_isMoving true draggedState in
  set_mousePosition (mousePosition s)
    (run defaultConfig noFix
       [ (hidden, MouseMove (primaryButton 5 6)); (hidden, WheelMove 3);
         (hidden, DoubleClick); (hidden, MouseUp); (hidden, KeyDown KeyCode.LEFT) ]
       s)
  = s.
Proof.
  cbv zeta. apply hidden_preview_ignores_input. reflexivity.
Defined.

(** ** Double click *)

(** X13: a second double click changes nothing more. *)
Theorem onDoubleClick_idempotent (e : Env) (s : State) :
  onDoubleClick e (onDoubleClick e s) = onDoubleClick e s.
Proof.
  unfold onDoubleClick. destruct (visible e); [|reflexivity].
  destruct (Qneq_bool (scale s) 1) eqn:Es;
    cbn [position set_scale scale];
    destruct (Qneq_bool (x (position s)) (x initialPosition)
              || Qneq_bool (y (position s)) (y initialPosition)) eqn:Ep;
    repeat (cbn [position set_scale scale setPosition set_queue];
            change (Qneq_bool 1 1) with false; cbv iota;
            rewrite ?Es, ?Ep);
    reflexivity.
Qed.

(** ** Group navigation: there and back, and a current key that is not in
       the group *)

Section NavigationMore.

Variable cfg : Config.

Lemma indexOf_from_notin (l : list Key) (k : Key) (i : Z) :
  ~ In k l -> indexOf_from i l k = (-1)%Z.
Proof.
  revert i. induction l as [|h t IH]; intros i Hin; cbn [indexOf_from].
  - reflexivity.
  - destruct (Z.eqb_spec h k) as [->|Hne].
    + exfalso. apply Hin. left. reflexivity.
    + apply IH. intro H. apply Hin. right. exact H.
Qed.

Lemma indexOf_from_found (l : list Key) (k : Key) (i : Z) :
  (0 <= i)%Z -> indexOf_from i l k <> (-1)%Z ->
  (i <= indexOf_from i l k)%Z
  /\ nth_error l (Z.to_nat (indexOf_from i l k - i)) = Some k.
Proof.
  revert i. induction l as [|h t IH]; intros i Hi Hfound;
    cbn [indexOf_from] in *.
  - contradiction.
  - destruct (Z.eqb_spec h k) as [->|Hne].
    + rewrite Z.sub_diag. split; [lia | reflexivity].
    + destruct (IH (i + 1)%Z ltac:(lia) Hfound) as [Hle Hn]. split; [lia|].
      replace (Z.to_nat (indexOf_from (i + 1) t k - i))
        with (S (Z.to_nat (indexOf_from (i + 1) t k - (i + 1)))) by lia.
      exact Hn.
Qed.

(** The key found at the current index is the current key. *)
Lemma at_index_current (s : State) :
  InRange cfg s ->
  at_index (previewUrlsKeys cfg) (currentPreviewIndex cfg s) = current s.
Proof.
  unfold InRange, currentPreviewIndex, indexOf.
  destruct (current s) as [k|]; [|lia]. intros Hr.
  destruct (@indexOf_from_found (previewUrlsKeys cfg) k 0%Z) as [_ Hn]; [lia|lia|].
  unfold at_index. destruct (Z.ltb_spec (indexOf_from 0 (previewUrlsKeys cfg) k) 0);
    [lia|].
  rewrite Z.sub_0_r in Hn. exact Hn.
Qed.

Lemma set_current_back (k : option Key) (s : State) :
  set_current (current s) (set_current k s) = s.
Proof. destruct s. reflexivity. Qed.

End NavigationMore.

(** X14: in a group whose keys are pairwise distinct, with the current index
    in range, going right and then left returns to the state one started
    from unless one was on the last item, and going left and then right does
    so unless one was on the first. *)
Theorem switch_there_and_back (cfg : Config) (s : State) :
  NoDup (previewUrlsKeys cfg) -> InRange cfg s ->
  ((currentPreviewIndex cfg s < previewGroupCount cfg - 1)%Z ->
   onSwitchLeft cfg (onSwitchRight cfg s) = s)
  /\ ((0 < currentPreviewIndex cfg s)%Z ->
      onSwitchRight cfg (onSwitchLeft cfg s) = s).
Proof.
  intros Hnd Hs. pose proof Hs as Hr. unfold InRange in Hr. split; intros Hi.
  - pose proof (@onSwitchRight_index cfg s Hnd Hs) as Hidx.
    destruct (Z.ltb_spec (currentPreviewIndex cfg s) (previewGroupCount cfg - 1));
      [|lia].
    unfold onSwitchLeft. rewrite Hidx.
    destruct (Z.ltb_spec 0 (currentPreviewIndex cfg s + 1)); [|lia].
    replace (currentPreviewIndex cfg s + 1 - 1)%Z
      with (currentPreviewIndex cfg s) by lia.
    rewrite (at_index_current Hs).
    unfold onSwitchRight.
    destruct (Z.ltb_spec (currentPreviewIndex cfg s) (previewGroupCount cfg - 1));
      [|lia].
    apply set_current_back.
  - pose proof (@onSwitchLeft_index cfg s Hnd Hs) as Hidx.
    destruct (Z.ltb_spec 0 (currentPreviewIndex cfg s)); [|lia].
    unfold onSwitchRight. rewrite Hidx.
    destruct (Z.ltb_spec (currentPreviewIndex cfg s - 1) (previewGroupCount cfg - 1));
      [|lia].
    replace (currentPreviewIndex cfg s - 1 + 1)%Z
      with (currentPreviewIndex cfg s) by lia.
    rewrite (at_index_current Hs).
    unfold onSwitchLeft.
    destruct (Z.ltb_spec 0 (currentPreviewIndex cfg s)); [|lia].
    apply set_current_back.
Qed.

Lemma switch_there_and_back_witness :
  onSwitchLeft groupOfThree (onSwitchRight groupOfThree (initialState (Some 2%Z)))
  = initialState (Some 2%Z)
  /\ onSwitchRight groupOfThree (onSwitchLeft groupOfThree (initialState (Some 2%Z)))
     = initialState (Some 2%Z).
Proof.
  assert (Hnd : NoDup (previewUrlsKeys groupOfThree)).
  { unfold previewUrlsKeys. cbn.
    repeat constructor; cbn; intuition discriminate. }
  assert (Hs : InRange groupOfThree (initialState (Some 2%Z)))
    by (unfold InRange; cbn; lia).
  destruct (@switch_there_and_back groupOfThree (initialState (Some 2%Z)) Hnd Hs)
    as [H1 H2].
  split; [apply H1 | apply H2]; cbn; lia.
Defined.

(** X15: when the current key is undefined or is not a key of the group,
    a left click changes nothing, and a right click selects the first item
    of a group that is not empty and changes nothing in an empty one. *)
Theorem switch_from_unknown_key (cfg : Config) (s : State) :
  match current s with
  | Some k => ~ In k (previewUrlsKeys cfg)
  | None => True
  end ->
  currentPreviewIndex cfg s = (-1)%Z
  /\ onSwitchLeft cfg s = s
  /\ (previewUrls cfg = [] -> onSwitchRight cfg s = s)
  /\ (forall k url rest, previewUrls cfg = (k, url) :: rest ->
        current (onSwitchRight cfg s) = Some k
        /\ currentPreviewIndex cfg (onSwitchRight cfg s) = 0%Z).
Proof.
  intros Hcur.
  assert (Hidx : currentPreviewIndex cfg s = (-1)%Z).
  { unfold currentPreviewIndex, indexOf. destruct (current s) as [k|];
      [apply indexOf_from_notin; exact Hcur | reflexivity]. }
  split; [exact Hidx|]. split; [|split].
  - unfold onSwitchLeft. rewrite Hidx. reflexivity.
  - intros Hempty. unfold onSwitchRight, previewGroupCount.
    rewrite Hidx, Hempty. reflexivity.
  - intros k url rest Hkeys.
    assert (Hright : onSwitchRight cfg s = set_current (Some k) s).
    { unfold onSwitchRight, previewGroupCount, previewUrlsKeys, setCurrent.
      rewrite Hidx, Hkeys. cbn [List.length List.map fst at_index].
      destruct (Z.ltb_spec (-1) (Z.of_nat (S (List.length rest)) - 1)); [|lia].
      reflexivity. }
    rewrite Hright. split; [reflexivity|].
    unfold currentPreviewIndex, previewUrlsKeys. rewrite Hkeys.
    cbn. rewrite Z.eqb_refl. reflexivity.
Qed.

Lemma switch_from_unknown_key_witness :
  onSwitchLeft groupOfThree (initialState (Some 7%Z)) = initialState (Some 7%Z)
  /\ current (onSwitchRight groupOfThree (initialState None)) = Some 1%Z.
Proof.
  split.
  - apply (@switch_from_unknown_key groupOfThree (initialState (Some 7%Z))).
    cbn. intuition discriminate.
  - destruct (@switch_from_unknown_key groupOfThree (initialState None) I)
      as (_ & _ & _ & H).
    apply (H 1%Z "a"%string [(2%Z, "b"%string); (3%Z, "c"%string)]).
    reflexivity.
Defined.

(** ** The reference-counted style cache *)

Section ClientCacheFacts.

Variable CacheType : Type.
Variable truthy : CacheType -> bool.
Variable hasOnCacheRemove : bool.
Variable production : bool.
Variable HMRUpdate : bool.
Variable cacheFn : unit -> CacheType.

Local Abbreviation create :=
  (createCacheUpdater truthy hasOnCacheRemove production HMRUpdate cacheFn).
Local Abbreviation clear := (@clearCacheUpdater CacheType hasOnCacheRemove).

(** Outside hot module replacement, an entry with a truthy cache is reused. *)
Lemma create_reuses (t : Z) (c : CacheType) :
  production = true \/ HMRUpdate = false ->
  truthy c = true ->
  create (Some (t, Some c)) = (Some ((t + 1)%Z, Some c), []).
Proof.
  intros Hhmr Hc. unfold createCacheUpdater. cbn [destructure isTruthy].
  rewrite Hc.
  assert (H : negb production && true && HMRUpdate = false)
    by (destruct Hhmr as [-> | ->]; [reflexivity | apply andb_false_r]).
  rewrite H. cbn [isTruthy]. rewrite Hc. reflexivity.
Qed.

Lemma repeat_create_reuses (n : nat) (t : Z) (c : CacheType) (calls : list (Effect CacheType)) :
  production = true \/ HMRUpdate = false ->
  truthy c = true ->
  repeatUpdater n create (Some (t, Some c), calls)
  = (Some ((t + Z.of_nat n)%Z, Some c), calls).
Proof.
  intros Hhmr Hc. revert t. induction n as [|n IH]; intros t.
  - cbn [repeatUpdater]. rewrite Z.add_0_r. reflexivity.
  - cbn [repeatUpdater andThen]. rewrite (create_reuses t Hhmr Hc).
    rewrite app_nil_r, IH. do 3 f_equal. lia.
Qed.

Lemma repeat_clear_keeps (k : nat) (t : Z) (c : option CacheType)
    (calls : list (Effect CacheType)) :
  (Z.of_nat k < t)%Z ->
  repeatUpdater k clear (Some (t, c), calls)
  = (Some ((t - Z.of_nat k)%Z, c), calls).
Proof.
  revert t. induction k as [|k IH]; intros t Hk.
  - cbn [repeatUpdater]. rewrite Z.sub_0_r. reflexivity.
  - cbn [repeatUpdater andThen]. unfold clearCacheUpdater at 2.
    cbn [destructure].
    destruct (Z.eqb_spec (t - 1) 0); [lia|].
    rewrite app_nil_r, IH by lia. do 3 f_equal. lia.
Qed.

(** X16: outside hot module replacement, when [cacheFn] yields a truthy
    cache, [n >= 1] creations at a path that has no entry leave the entry
    [[n, cache]] and call [cacheFn] once: the users share one cache. *)
Theorem create_shares_one_cache (n : nat) :
  production = true \/ HMRUpdate = false ->
  truthy (cacheFn tt) = true ->
  (1 <= n)%nat ->
  repeatUpdater n create (None, [])
  = (Some (Z.of_nat n, Some (cacheFn tt)), [CacheFn CacheType]).
Proof.
  intros Hhmr Hc Hn. destruct n as [|n]; [lia|].
  assert (Hfirst : create None = (Some (1%Z, Some (cacheFn tt)), [CacheFn CacheType])).
  { unfold createCacheUpdater. cbn [destructure isTruthy].
    rewrite andb_false_r. reflexivity. }
  cbn [repeatUpdater andThen]. rewrite Hfirst. cbn [app].
  rewrite (repeat_create_reuses n 1 _ Hhmr Hc). do 3 f_equal. lia.
Qed.

(** X17: under the same conditions, after [n >= 1] creations the first
    [k < n] clears keep the entry, with count [n - k] and the same cache, and
    call nothing; the [n]-th clear removes the entry and calls
    [onCacheRemove(cache, false)], once. *)
Theorem clear_removes_at_last_user (n k : nat) :
  production = true \/ HMRUpdate = false ->
  truthy (cacheFn tt) = true ->
  (1 <= n)%nat ->
  let created := repeatUpdater n create (None, []) in
  ((k < n)%nat ->
   repeatUpdater k clear created
   = (Some ((Z.of_nat n - Z.of_nat k)%Z, Some (cacheFn tt)), [CacheFn CacheType]))
  /\ repeatUpdater n clear created
     = (None, CacheFn CacheType
              :: callOnCacheRemove hasOnCacheRemove (Some (cacheFn tt)) false).
Proof.
  intros Hhmr Hc Hn created. subst created.
  rewrite (create_shares_one_cache Hhmr Hc Hn). split.
  - intros Hk. apply repeat_clear_keeps. lia.
  - destruct n as [|n]; [lia|].
    replace (S n) with (n + 1)%nat at 1 by lia.
    assert (Hsplit : forall a b f (r : option (Entry CacheType) * list (Effect CacheType)),
               repeatUpdater (a + b) f r = repeatUpdater b f (repeatUpdater a f r)).
    { induction a as [|a IHa]; intros b f r; [reflexivity|].
      cbn [Nat.add repeatUpdater]. apply IHa. }
    rewrite Hsplit, repeat_clear_keeps by lia.
    cbn [repeatUpdater andThen]. unfold clearCacheUpdater.
    cbn [destructure].
    destruct (Z.eqb_spec (Z.of_nat (S n) - Z.of_nat n - 1) 0); [|lia].
    reflexivity.
Qed.

(** X18: a clear at a path that has no entry removes nothing: it leaves the
    entry [[-1, undefined]] and calls nothing; from then on every creation
    followed by a clear leaves an entry of count [-1] again, so the entry is
    never removed by balanced users. *)
Theorem clear_without_create_leaks (m : nat) :
  clear None = (Some ((-1)%Z, None), [])
  /\ exists c calls,
       repeatUpdater m (fun prev => andThen (create prev) clear) (clear None)
       = (Some ((-1)%Z, c), calls).
Proof.
  split; [reflexivity|].
  assert (H : forall c calls,
            exists c' calls',
              repeatUpdater m (fun prev => andThen (create prev) clear)
                (Some ((-1)%Z, c), calls)
              = (Some ((-1)%Z, c'), calls')).
  { induction m as [|m IH]; intros c calls.
    - exists c, calls. reflexivity.
    - cbn [repeatUpdater]. unfold andThen at 2.
      unfold createCacheUpdater, clearCacheUpdater, andThen.
      cbn [destructure].
      destruct (negb production && isTruthy truthy c && HMRUpdate);
        destruct (isTruthy truthy _); cbn; apply IH. }
  apply H.
Qed.

(** X19: in production the hot-module-replacement flag has no effect on a
    creation; outside production, with the flag set, a creation on a truthy
    cache hands the old cache to [onCacheRemove(cache, true)], computes a new
    one with [cacheFn], and still counts one more user. *)
Theorem create_hot_replacement (t : Z) (c : CacheType) (prev : option (Entry CacheType)) :
  (production = true ->
   create prev
   = createCacheUpdater truthy hasOnCacheRemove production false cacheFn prev)
  /\ (production = false -> HMRUpdate = true -> truthy c = true ->
      create (Some (t, Some c))
      = (Some ((t + 1)%Z, Some (cacheFn tt)),
         callOnCacheRemove hasOnCacheRemove (Some c) true ++ [CacheFn CacheType])).
Proof.
  split.
  - intros ->. unfold createCacheUpdater. destruct (destructure prev).
    cbn [negb andb]. reflexivity.
  - intros -> -> Hc. unfold createCacheUpdater. cbn [destructure isTruthy].
    rewrite Hc. reflexivity.
Qed.

End ClientCacheFacts.

Lemma create_shares_one_cache_witness :
  repeatUpdater 3 (createCacheUpdater (fun _ : nat => true) true true true (fun _ => 7%nat))
    (None, [])
  = (Some (3%Z, Some 7%nat), [CacheFn nat]).
Proof.
  apply (@create_shares_one_cache nat (fun _ => true) true true true (fun _ => 7%nat) 3).
  - left. reflexivity.
  - reflexivity.
  - lia.
Defined.

Lemma clear_removes_at_last_user_witness :
  let create := createCacheUpdater (fun _ : nat => true) true false false (fun _ => 7%nat) in
  let clear := @clearCacheUpdater nat true in
  repeatUpdater 2 clear (repeatUpdater 3 create (None, []))
  = (Some (1%Z, Some 7%nat), [CacheFn nat])
  /\ repeatUpdater 3 clear (repeatUpdater 3 create (None, []))
     = (None, [CacheFn nat; OnCacheRemove (Some 7%nat) false]).
Proof.
  cbv zeta.
  destruct (@clear_removes_at_last_user nat (fun _ => true) true false false
              (fun _ => 7%nat) 3 2) as [H1 H2].
  - right. reflexivity.
  - reflexivity.
  - lia.
  - split; [apply H1; lia | exact H2].
Defined.

Lemma create_hot_replacement_witness :
  createCacheUpdater (fun _ : nat => true) true false true (fun _ => 7%nat)
    (Some (2%Z, Some 5%nat))
  = (Some (3%Z, Some 7%nat), [OnCacheRemove (Some 5%nat) true; CacheFn nat]).
Proof.
  destruct (@create_hot_replacement nat (fun _ => true) true false true
              (fun _ => 7%nat) 2 5%nat None) as [_ H].
  apply H; reflexivity.
Defined.
